(** * clean-data: the review history, the dashboard filters and the pager

  A shallow embedding of the state logic of two React components,
  [src/components/DataCleaningStep.tsx] (the undo/redo history of a
  cleaning run) and [src/components/DashboardStep.tsx] (categorical
  filters and the paginated table), and of the JavaScript array
  operations they are written with.

  Conventions of the embedding.
  - A JavaScript object used as a dictionary is a [gmap string _];
    [Object.keys] lists its domain.  The components never depend on the
    order of that list (it is filtered, iterated with [every], or folded
    into another dictionary).
  - A number of a record is represented by the text the language
    prints for it; the components compare and print such numbers and
    never calculate with them.  An index or a page is a [Z].
  - An object is a plain one: what it inherits from [Object.prototype]
    is modelled where the components can meet it, in assignments through
    a computed key and in the read [filters[col] || []].
  - A component's state cell is a value; an event handler is a function
    from the state it closes over to the state it passes to the setter.
    A handler that returns before calling the setter returns its input. *)

From Stdlib Require Import ZArith Lia Ascii.
From stdpp Require Import base decidable option list sorting strings pretty gmap.

Local Open Scope Z_scope.

(** ** JavaScript values and array operations *)
Module JS.

(** A number of a record.  The components compare such numbers
    ([includes], [Set]) and print them ([sort]); they never calculate
    with them.  A number is therefore represented by the text the
    language prints for it, [String(n)].  That text determines the
    number, and +0 and -0, which [includes] and [Set] take for one value,
    both print 0: two numbers are the same value exactly when their texts
    are equal.  Integers, fractions and the numbers printed with an
    exponent (1e+21) are all covered. *)
Record Number : Type := mkNumber { Number_text : string }.

#[global] Instance Number_eq_dec : EqDecision Number.
Proof. solve_decision. Defined.

(** The number whose value is the integer [z].  An integer below 2^53 in
    magnitude is a number and prints in plain decimal, with a minus sign
    when negative; beyond that not every integer is a number and the
    printed text takes another form, so none is given. *)
Definition integer (z : Z) : option Number :=
  if bool_decide (Z.abs z < 2 ^ 53)
  then Some {| Number_text := pretty z |}
  else None.

(** [string | number], the scalars of [DataRecord] in [src/types.ts]. *)
Inductive Scalar : Type :=
| Str (s : string)
| Num (n : Number).

#[global] Instance Scalar_eq_dec : EqDecision Scalar.
Proof. solve_decision. Defined.

(** What a property read [o[k]] yields: the scalar, or [undefined]
    ([None]) when [o] has no own property [k]. *)
Abbreviation Value := (option Scalar).

(** [typeof v === 'string'] *)
Definition typeof_string (v : Value) : bool :=
  match v with
  | Some (Str _) => true
  | _ => false
  end.

(** [Object.keys(o)] *)
Definition Object_keys {V} (o : gmap string V) : list string :=
  (map_to_list o).*1.

(** [arr.filter((x, i) => p(x, i))]: the callback sees each element with
    its index, counted from [from]. *)
Fixpoint filter_from {A} (p : A → nat → bool) (from : nat) (arr : list A)
  : list A :=
  match arr with
  | [] => []
  | x :: rest =>
      if p x from then x :: filter_from p (S from) rest
      else filter_from p (S from) rest
  end.

Definition Array_filter_indexed {A} (p : A → nat → bool) (arr : list A)
  : list A :=
  filter_from p 0 arr.

(** [arr.slice(start, end)]: a negative bound counts from the end, both
    bounds are clamped into [0 .. arr.length], and an empty range gives
    the empty array. *)
Definition Array_slice {A} (arr : list A) (start end_ : Z) : list A :=
  let len := Z.of_nat (length arr) in
  let k := if start <? 0 then Z.max (len + start) 0 else Z.min start len in
  let final := if end_ <? 0 then Z.max (len + end_) 0 else Z.min end_ len in
  take (Z.to_nat (final - k)) (drop (Z.to_nat k) arr).

(** [arr.includes(v)], on values compared with SameValueZero, which on
    strings, numbers and [undefined] as represented here is equality. *)
Definition Array_includes (arr : list Value) (v : Value) : bool :=
  bool_decide (v ∈ arr).

(** [arr.slice(start)]: the end defaults to [arr.length]. *)
Definition Array_slice_from {A} (arr : list A) (start : Z) : list A :=
  Array_slice arr start (Z.of_nat (length arr)).

(** [arr.filter(x => p(x))] *)
Definition Array_filter {A} (p : A → bool) (arr : list A) : list A :=
  filter (λ x, Is_true (p x)) arr.

(** [arr.every(x => p(x))] *)
Definition Array_every {A} (p : A → bool) (arr : list A) : bool :=
  forallb p arr.

(** [Math.ceil(a / b)] for integers [a] and a positive integer [b]. *)
Definition Math_ceil_div (a b : Z) : Z := - ((- a) / b).

(** A [Set] of values, as the list of its members in insertion order.
    [add] leaves the set alone when the value is already a member. *)
Definition Set_add (s : list Value) (v : Value) : list Value :=
  if bool_decide (v ∈ s) then s else s ++ [v].

(** [new Set(iterable)] *)
Definition Set_new (iterable : list Value) : list Value :=
  foldl Set_add [] iterable.

(** [set.size] *)
Definition Set_size (s : list Value) : nat := length s.

(** [ToString] on a scalar: a string is itself, a number is printed. *)
Definition ToString (x : Scalar) : string :=
  match x with
  | Str s => s
  | Num n => Number_text n
  end.

(** The comparison [arr.sort()] uses when it is given no comparator:
    [undefined] goes after everything else, and two other values are
    compared as strings, by character code. *)
Definition SortCompare (x y : Value) : comparison :=
  match x, y with
  | None, None => Eq
  | None, Some _ => Gt
  | Some _, None => Lt
  | Some a, Some b => String.compare (ToString a) (ToString b)
  end.

(** [arr.sort()].  The language requires the sort to be stable, so its
    result is determined by [SortCompare]; insertion from the right, each
    element placed before the first element it does not exceed, computes
    it. *)
Fixpoint sort_insert (x : Value) (sorted : list Value) : list Value :=
  match sorted with
  | [] => [x]
  | y :: rest =>
      match SortCompare x y with
      | Gt => y :: sort_insert x rest
      | _ => x :: y :: rest
      end
  end.

Definition Array_sort (arr : list Value) : list Value :=
  foldr sort_insert [] arr.

(** *** Strings

    A string is the sequence of its code units; the embedding covers the
    code units below 256. *)

(** [s.split(sep)] for a separator of one character: the pieces between
    the separators, of which there is always at least one. *)
Fixpoint String_split (sep : Ascii.ascii) (s : string) : list string :=
  match s with
  | EmptyString => [EmptyString]
  | String c rest =>
      if decide (c = sep) then EmptyString :: String_split sep rest
      else
        match String_split sep rest with
        | piece :: pieces => String c piece :: pieces
        | [] => [String c EmptyString] (* not reached *)
        end
  end.

(** The white space and line terminators that [trim] strips. *)
Definition is_white_space (c : Ascii.ascii) : bool :=
  bool_decide
    (c ∈ ["009"; "010"; "011"; "012"; "013"; " "; "160"]%char).

Fixpoint String_trimStart (s : string) : string :=
  match s with
  | EmptyString => EmptyString
  | String c rest => if is_white_space c then String_trimStart rest else s
  end.

Fixpoint String_trimEnd (s : string) : string :=
  match s with
  | EmptyString => EmptyString
  | String c rest =>
      match String_trimEnd rest with
      | EmptyString =>
          if is_white_space c then EmptyString else String c EmptyString
      | kept => String c kept
      end
  end.

(** [s.trim()] *)
Definition String_trim (s : string) : string :=
  String_trimEnd (String_trimStart s).

(** [s.replace(/c/g, '')]: every occurrence of one character removed. *)
Fixpoint String_remove_all (c : Ascii.ascii) (s : string) : string :=
  match s with
  | EmptyString => EmptyString
  | String c' rest =>
      if decide (c' = c) then String_remove_all c rest
      else String c' (String_remove_all c rest)
  end.

(** The characters of a string. *)
Fixpoint code_units (s : string) : list Ascii.ascii :=
  match s with
  | EmptyString => []
  | String c rest => c :: code_units rest
  end.

(** The names every plain object inherits from [Object.prototype].  A
    read [o[k]] of such a name on an object without own property [k]
    yields the inherited member, a function or (for [__proto__]) an
    object, never [undefined] and never an array. *)
Definition Object_prototype_members : list string :=
  ["constructor"; "__proto__"; "hasOwnProperty"; "isPrototypeOf";
   "propertyIsEnumerable"; "toString"; "toLocaleString"; "valueOf";
   "__defineGetter__"; "__defineSetter__"; "__lookupGetter__";
   "__lookupSetter__"].

(** [o[k] = v] on a plain object.  The assignment creates or overwrites
    the own property [k], except for the key [__proto__]: that one runs
    the inherited setter, which changes at most the prototype and leaves
    the own properties as they are. *)
Definition Object_set {V} (o : gmap string V) (k : string) (v : V)
  : gmap string V :=
  if decide (k = "__proto__") then o else <[k := v]> o.

(** [arr.reduce((acc, x, i) => f(acc, x, i), init)], the index counted
    from [from]. *)
Fixpoint reduce_from {A B} (f : B → A → nat → B) (from : nat) (acc : B)
    (arr : list A) : B :=
  match arr with
  | [] => acc
  | x :: rest => reduce_from f (S from) (f acc x from) rest
  end.

Definition Array_reduce {A B} (f : B → A → nat → B) (init : B)
    (arr : list A) : B :=
  reduce_from f 0 init arr.

(** [s.toLowerCase()], on code units below 256: the capital letters of
    ASCII and of Latin-1 (the multiplication sign, 215, is not one) move
    up by 32. *)
Definition to_lower (c : Ascii.ascii) : Ascii.ascii :=
  let n := nat_of_ascii c in
  if ((65 <=? n) && (n <=? 90)
      || (192 <=? n) && (n <=? 222) && negb (n =? 215))%nat
  then ascii_of_nat (n + 32)
  else c.

Fixpoint String_toLowerCase (s : string) : string :=
  match s with
  | EmptyString => EmptyString
  | String c rest => String (to_lower c) (String_toLowerCase rest)
  end.

(** What a [throw] hands to [catch]: an [Error] with its message, or
    any other value. *)
Inductive Thrown : Type :=
| ErrorObject (message : string)
| OtherValue.

End JS.

(** ** [src/types.ts] *)
Module Types.
Import JS.

Abbreviation DataRecord := (gmap string Scalar).

(** [Record<string, (string | number)[]>].  A selection is filled with
    values read from rows, so it is given the type of those reads. *)
Abbreviation Filters := (gmap string (list Value)).

Record RemovedRow : Type := mkRemovedRow {
  originalRow : DataRecord;
  reason : string
}.

Record ChangeLog : Type := mkChangeLog {
  summary : string;
  removedRows : list RemovedRow
}.

Record CleaningResults : Type := mkCleaningResults {
  cleanedData : list DataRecord;
  changeLog : ChangeLog
}.

End Types.

(** ** The cleaning run and its history ([DataCleaningStep.tsx]) *)
Module DataCleaningStep.
Import JS.
Import Types.

(** The unit of history: [{ cleanedData, removedRows }]. *)
Record CleaningState : Type := mkCleaningState {
  cleanedData : list DataRecord;
  removedRows : list RemovedRow
}.

Record DataHistory : Type := mkDataHistory {
  past : list CleaningState;
  present : CleaningState;
  future : list CleaningState
}.

(** The history installed by [handleCleanData] when the service answers. *)
Definition initialize (results : CleaningResults) : DataHistory :=
  {| past := [];
     present :=
       {| cleanedData := Types.cleanedData results;
          removedRows := Types.removedRows (Types.changeLog results) |};
     future := [] |}.

Definition handleRestoreRow (dataHistory : DataHistory)
    (rowToRestore : RemovedRow) (index : Z) : DataHistory :=
  let present := present dataHistory in
  let past := past dataHistory in
  let newPresent :=
    {| cleanedData := cleanedData present ++ [originalRow rowToRestore];
       removedRows :=
         Array_filter_indexed (λ _ i, negb (Z.of_nat i =? index))
                              (removedRows present) |} in
  {| past := past ++ [present];
     present := newPresent;
     future := [] |}.

Definition handleUndo (dataHistory : DataHistory) : DataHistory :=
  let '(mkDataHistory past present future) := dataHistory in
  if (length past =? 0)%nat then dataHistory
  else
    match past !! (length past - 1)%nat with
    | Some previous =>
        let newPast := Array_slice past 0 (Z.of_nat (length past) - 1) in
        {| past := newPast;
           present := previous;
           future := present :: future |}
    | None => dataHistory (* not reached: the index is in range *)
    end.

Definition handleRedo (dataHistory : DataHistory) : DataHistory :=
  let '(mkDataHistory past present future) := dataHistory in
  if (length future =? 0)%nat then dataHistory
  else
    match future !! 0%nat with
    | Some next =>
        let newFuture := Array_slice_from future 1 in
        {| past := past ++ [present];
           present := next;
           future := newFuture |}
    | None => dataHistory (* not reached: the array is not empty *)
    end.

(** The user's actions on the review screen, and a session of them. *)
Inductive Action : Type :=
| RestoreRow (rowToRestore : RemovedRow) (index : Z)
| Undo
| Redo.

Definition act (h : DataHistory) (a : Action) : DataHistory :=
  match a with
  | RestoreRow r i => handleRestoreRow h r i
  | Undo => handleUndo h
  | Redo => handleRedo h
  end.

Definition session (h : DataHistory) (actions : list Action) : DataHistory :=
  foldl act h actions.

(** An array without its entry at [index]; where it has no entry at
    [index], the array itself. *)
Definition without_entry {A} (arr : list A) (index : Z) : list A :=
  if decide (0 ≤ index) then delete (Z.to_nat index) arr else arr.

(** An index addresses an entry of the removed rows now displayed. *)
Definition index_in_bounds (h : DataHistory) (index : Z) : Prop :=
  0 ≤ index < Z.of_nat (length (removedRows (present h))).

(** Every restore of the session is given an index in bounds of the
    removed rows displayed when it happens. *)
Fixpoint restores_in_bounds (h : DataHistory) (actions : list Action)
  : Prop :=
  match actions with
  | [] => True
  | a :: rest =>
      match a with
      | RestoreRow _ i => index_in_bounds h i
      | _ => True
      end ∧ restores_in_bounds (act h a) rest
  end.

(** [cleanedData.length + removedRows.length] *)
Definition row_count (s : CleaningState) : nat :=
  (length (cleanedData s) + length (removedRows s))%nat.

(** Every snapshot the history holds has [n] rows in all. *)
Definition conserves (n : nat) (h : DataHistory) : Prop :=
  Forall (λ s, row_count s = n) (past h)
  ∧ row_count (present h) = n
  ∧ Forall (λ s, row_count s = n) (future h).

(** *** The review screen as the user drives it *)

(** The snapshots of a history in the order they were made. *)
Definition timeline (h : DataHistory) : list CleaningState :=
  past h ++ present h :: future h.

(** All the rows a snapshot knows: the cleaned ones, then the originals of
    the removed ones. *)
Definition rows_of (s : CleaningState) : list DataRecord :=
  cleanedData s ++ (originalRow <$> removedRows s).

(** The table of removed rows has one Restore button per entry:
    [removedRows.map((item, i) => ... onClick={() => handleRestoreRow(item, i)})].
    The Undo and Redo buttons call their handlers. *)
Inductive Click : Type :=
| ClickRestore (i : nat)
| ClickUndo
| ClickRedo.

Definition click (h : DataHistory) (c : Click) : DataHistory :=
  match c with
  | ClickRestore i =>
      match removedRows (present h) !! i with
      | Some item => handleRestoreRow h item (Z.of_nat i)
      | None => h (* the table has no such button *)
      end
  | ClickUndo => handleUndo h
  | ClickRedo => handleRedo h
  end.

Definition review (h : DataHistory) (clicks : list Click) : DataHistory :=
  foldl click h clicks.

(** *** The preview of the uploaded text *)

(** [h.trim()] with every double quote then removed, as the source does
    with [replace] and a global pattern. *)
Definition unquote (s : string) : string :=
  String_remove_all "034"%char (String_trim s).

(** [values[index] ? values[index].trim()... : ''], the text of one cell:
    a field that is missing or empty shows as the empty string. *)
Definition preview_cell (values : list string) (index : nat) : string :=
  match values !! index with
  | Some v => if decide (v = EmptyString) then EmptyString else unquote v
  | None => EmptyString
  end.

(** The callback mapped over the lines: the object with one cell per
    header, assigned in the order of the headers. *)
Definition preview_row (headers : list string) (line : string)
  : DataRecord :=
  let values := String_split ","%char line in
  Array_reduce
    (λ (obj : DataRecord) header index,
       Object_set obj header (Str (preview_cell values index)))
    ∅ headers.

(** The [useMemo] that yields [[sampleData, headers]]. *)
Definition preview (rawCsvData : string)
  : list DataRecord * list string :=
  if decide (rawCsvData = EmptyString) then ([], [])
  else
    let lines := String_split "010"%char rawCsvData in
    let headers :=
      map unquote (String_split ","%char (default EmptyString (lines !! 0%nat)))
    in
    let data := map (preview_row headers) (Array_slice lines 1 6) in
    (data, headers).

Definition sampleData (rawCsvData : string) : list DataRecord :=
  (preview rawCsvData).1.

Definition headers (rawCsvData : string) : list string :=
  (preview rawCsvData).2.

End DataCleaningStep.

(** ** The request to the cleaning service ([services/geminiService.ts]) *)
Module GeminiService.
Import JS.

Inductive SchemaType : Type := STRING | OBJECT | ARRAY.

Record PropertySchema : Type := mkPropertySchema {
  type : SchemaType;
  description : string
}.

(** The header names [cleanDataWithGemini] reads off the first line. *)
Definition headers (csvData : string) : list string :=
  map (λ h, String_remove_all "034"%char (String_trim h))
      (String_split ","%char
         (default EmptyString (String_split "010"%char csvData !! 0%nat))).

(** The properties of one row object in the response schema: one per
    header that is not the empty string. *)
Definition dynamicObjectProperties (csvData : string)
  : gmap string PropertySchema :=
  Array_reduce
    (λ (acc : gmap string PropertySchema) header (_ : nat),
       if decide (header = EmptyString) then acc
       else
         Object_set acc header
           {| type := STRING;
              description := "Value for the " +:+ header +:+ " column." |})
    ∅ (headers csvData).

End GeminiService.

(** ** Filters and pages of the dashboard ([DashboardStep.tsx]) *)
Module DashboardStep.
Import JS.
Import Types.

(** The [cleanedData] prop and the three state cells the table reads. *)
Record Dashboard : Type := mkDashboard {
  cleanedData : list DataRecord;
  filters : Filters;
  filteredData : list DataRecord;
  page : Z
}.

Definition rowsPerPage : Z := 10.

(** [new Set(cleanedData.map(row => row[header]))] *)
Definition uniqueValues (cleanedData : list DataRecord) (header : string)
  : list Value :=
  Set_new (map (λ row : DataRecord, row !! header) cleanedData).

Definition categoricalColumns (cleanedData : list DataRecord) : list string :=
  match cleanedData with
  | [] => []
  | first :: _ =>
      let headers := Object_keys first in
      Array_filter
        (λ header,
           if negb (typeof_string (first !! header)) then false
           else
             let uniqueValues := uniqueValues cleanedData header in
             (1 <? Set_size uniqueValues)%nat
             && (Set_size uniqueValues <=? 50)%nat)
        headers
  end.

(** [values[col] = uniqueVals] for each categorical column, starting from
    the empty object. *)
Definition uniqueFilterValues (cleanedData : list DataRecord)
  : gmap string (list Value) :=
  foldl
    (λ values col,
       let uniqueVals := Array_sort (uniqueValues cleanedData col) in
       <[col := uniqueVals]> values)
    ∅ (categoricalColumns cleanedData).

(** [filters[key]] for a key taken from [Object.keys(filters)]; the read
    is always defined there (see [filters_read_defined]). *)
Definition selection (filters : Filters) (key : string) : list Value :=
  default [] (filters !! key).

Definition activeFilters (filters : Filters) : list string :=
  Array_filter (λ key, (0 <? length (selection filters key))%nat)
               (Object_keys filters).

(** The effect that runs when [filters] or [cleanedData] change. *)
Definition recompute (d : Dashboard) : Dashboard :=
  let activeFilters := activeFilters (filters d) in
  if (length activeFilters =? 0)%nat then
    {| cleanedData := cleanedData d;
       filters := filters d;
       filteredData := cleanedData d;
       page := 0 |}
  else
    let newFilteredData :=
      Array_filter
        (λ row : DataRecord,
           Array_every
             (λ key, Array_includes (selection (filters d) key) (row !! key))
             activeFilters)
        (cleanedData d) in
    {| cleanedData := cleanedData d;
       filters := filters d;
       filteredData := newFilteredData;
       page := 0 |}.

Definition paginatedData (d : Dashboard) : list DataRecord :=
  Array_slice (filteredData d)
              (page d * rowsPerPage) ((page d + 1) * rowsPerPage).

Definition pageCount (d : Dashboard) : Z :=
  Math_ceil_div (Z.of_nat (length (filteredData d))) rowsPerPage.

(** [setPage(p => Math.max(0, p - 1))] *)
Definition previous (d : Dashboard) : Dashboard :=
  {| cleanedData := cleanedData d;
     filters := filters d;
     filteredData := filteredData d;
     page := Z.max 0 (page d - 1) |}.

(** [setPage(p => Math.min(pageCount - 1, p + 1))] *)
Definition next (d : Dashboard) : Dashboard :=
  {| cleanedData := cleanedData d;
     filters := filters d;
     filteredData := filteredData d;
     page := Z.min (pageCount d - 1) (page d + 1) |}.

(** *** The controls of the dashboard *)

(** [handleSelect] of [FilterDropdown]: ticking a value that is selected
    removes it, ticking one that is not appends it. *)
Definition handleSelect (selected : list Value) (value : Value)
  : list Value :=
  if Array_includes selected value
  then Array_filter (λ item, negb (bool_decide (item = value))) selected
  else selected ++ [value].

(** [setFilters(prev => ({...prev, [col]: newSelected}))] *)
Definition setFilters (d : Dashboard) (col : string)
    (newSelected : list Value) : Dashboard :=
  {| cleanedData := cleanedData d;
     filters := <[col := newSelected]> (filters d);
     filteredData := filteredData d;
     page := page d |}.

(** [setPage(p)] *)
Definition setPage (d : Dashboard) (p : Z) : Dashboard :=
  {| cleanedData := cleanedData d;
     filters := filters d;
     filteredData := filteredData d;
     page := p |}.

(** What the dropdown of [col] is handed as [selected], the read
    [filters[col] || []].  A selection of its own is an array, and an
    array is truthy.  Without one the read is [undefined] and the
    dropdown gets the empty array, unless [col] is the name of a member
    that [filters] inherits: the member is truthy and is handed on, and
    as it is no array and has no [includes], the dropdown throws when it
    renders its checkboxes ([None]). *)
Definition selected (filters : Filters) (col : string)
  : option (list Value) :=
  match filters !! col with
  | Some own => Some own
  | None =>
      if bool_decide (col ∈ Object_prototype_members) then None
      else Some []
  end.

(** A checkbox of the dropdown of [col] changes: from what the dropdown
    was handed, the new selection is computed and stored, and the effect
    recomputes the view.  There is no such change when the dropdown
    cannot render its checkboxes. *)
Definition tick (d : Dashboard) (col : string) (value : Value)
  : option Dashboard :=
  match selected (filters d) col with
  | Some selected =>
      Some (recompute (setFilters d col (handleSelect selected value)))
  | None => None
  end.

(** The component as first rendered for a dataset, its effect run. *)
Definition mount (cleanedData : list DataRecord) : Dashboard :=
  recompute
    {| cleanedData := cleanedData;
       filters := ∅;
       filteredData := cleanedData;
       page := 0 |}.

(** What the user can do.  The pager is rendered when there is more than
    one page, with Previous disabled on page 0 and Next disabled on the
    last page; a dropdown is rendered for each categorical column, with
    one checkbox for each of its values. *)
Inductive Event : Type :=
| ClickPrevious
| ClickNext
| Tick (col : string) (value : Value).

(** The state after an event, or [None] when handling it throws. *)
Definition dispatch (d : Dashboard) (e : Event) : option Dashboard :=
  match e with
  | ClickPrevious =>
      Some (if (1 <? pageCount d) && negb (page d =? 0)
            then previous d else d)
  | ClickNext =>
      Some (if (1 <? pageCount d) && negb (pageCount d - 1 <=? page d)
            then next d else d)
  | Tick col value =>
      match uniqueFilterValues (cleanedData d) !! col with
      | Some values =>
          if bool_decide (value ∈ values) then tick d col value
          else Some d
      | None => Some d
      end
  end.

(** A sequence of events, as long as none throws. *)
Definition interact (d : Dashboard) (events : list Event)
  : option Dashboard :=
  foldl (λ state e, state ≫= (λ d, dispatch d e)) (Some d) events.

(** *** The properties the code is compared with *)

(** A row passes a selection mapping when, for every column whose
    selection is not empty, the row's value is one of the selected. *)
Definition passes (F : Filters) (row : DataRecord) : Prop :=
  map_Forall (λ c (sel : list Value), sel ≠ [] → row !! c ∈ sel) F.

#[global] Instance passes_dec F row : Decision (passes F row).
Proof. unfold passes. apply _. Defined.

(** The value of a column in the first record, if there is one. *)
Definition first_value (D : list DataRecord) (c : string) : Value :=
  D !! 0%nat ≫= (λ first : DataRecord, first !! c).

(** How many different results the read [row[c]] has over the dataset:
    the different values of the column, and one more when some record
    lacks the column. *)
Definition distinct_count (D : list DataRecord) (c : string) : nat :=
  length (remove_dups (map (λ row : DataRecord, row !! c) D)).

(** How many different values a column takes over the dataset; a record
    that lacks the column has no value there. *)
Definition distinct_values (D : list DataRecord) (c : string) : nat :=
  length (remove_dups (omap (λ row : DataRecord, row !! c) D)).

(** Some record lacks the column. *)
Definition has_gap (D : list DataRecord) (c : string) : bool :=
  bool_decide (None ∈ map (λ row : DataRecord, row !! c) D).

(** Ascending for the type of the scalars: two strings in lexical order,
    two numbers in numeric order (said of the numbers that are integers,
    whose values can be named here). *)
Definition typed_le (x y : Value) : Prop :=
  match x, y with
  | Some (Str a), Some (Str b) => String.leb a b = true
  | Some (Num m), Some (Num n) =>
      ∀ a b : Z, integer a = Some m → integer b = Some n → a ≤ b
  | _, _ => True
  end.

(** Ascending as [sort()] compares: by the text of the values, by
    character code, [undefined] last. *)
Definition text_le (x y : Value) : Prop := SortCompare x y ≠ Gt.

(** How often a row occurs in a dataset. *)
Definition occurrences (row : DataRecord) (D : list DataRecord) : nat :=
  length (filter (λ r, r = row) D).

End DashboardStep.

(** ** Reading the uploaded file ([FileUploadStep.tsx]) *)
Module FileUploadStep.
Import JS.

(** A file as [handleFile] sees it: its name, and what the [FileReader]
    comes back with, an error event or a load event whose result may be
    missing. *)
Inductive ReadOutcome : Type :=
| ReadError
| ReadLoad (content : option string).

Record File : Type := mkFile {
  name : string;
  reading : ReadOutcome
}.

(** What the user and the application see of one call. *)
Inductive Outcome : Type :=
| Ignored
| Alerted (message : string)
| Uploaded (csvString fileName : string).

(** [error instanceof Error ? error.message : ...], in the alert. *)
Definition parse_failure (error : Thrown) : Outcome :=
  Alerted
    ("Failed to parse file: "
     +:+ match error with
         | ErrorObject message => message
         | OtherValue => "An unknown error occurred during parsing."
         end).

(** [file.name.split('.').pop()?.toLowerCase()] *)
Definition fileExtension (file : File) : option string :=
  String_toLowerCase <$> last (String_split "."%char (name file)).

Section Libraries.

(** The spreadsheet and JSON libraries, as far as [handleFile] depends on
    them: [XLSX.read] with [sheet_to_csv] of the first sheet,
    [JSON.parse], [Array.isArray] and [Papa.unparse].  Each call that can
    throw returns what it throws on the left. *)
Variable Json : Type.
Variable xlsx_to_csv : string → Thrown + string.
Variable JSON_parse : string → Thrown + Json.
Variable Array_isArray : Json → bool.
Variable Papa_unparse : Json → Thrown + string.

(** [reader.onload] *)
Definition onload (file : File) (content : option string) : Outcome :=
  match content with
  | None => Alerted "Could not read file content."
  | Some content =>
      let ext := fileExtension file in
      if bool_decide (ext = Some "csv" ∨ ext = Some "txt") then
        Uploaded content (name file)
      else if bool_decide (ext = Some "xlsx" ∨ ext = Some "xls") then
        match xlsx_to_csv content with
        | inr csvString => Uploaded csvString (name file)
        | inl error => parse_failure error
        end
      else if bool_decide (ext = Some "json") then
        match JSON_parse content with
        | inr jsonData =>
            if Array_isArray jsonData then
              match Papa_unparse jsonData with
              | inr csvString => Uploaded csvString (name file)
              | inl error => parse_failure error
              end
            else
              parse_failure
                (ErrorObject "JSON file must contain an array of objects.")
        | inl error => parse_failure error
        end
      else
        Alerted
          "Unsupported file type. Please upload a CSV, Excel, or JSON file."
  end.

Definition handleFile (file : option File) : Outcome :=
  match file with
  | None => Ignored
  | Some file =>
      let ext := fileExtension file in
      if bool_decide (ext = Some "xlsx" ∨ ext = Some "xls")
         || bool_decide (ext = Some "csv" ∨ ext = Some "txt"
                         ∨ ext = Some "json")
      then
        match reading file with
        | ReadError => Alerted "Error reading file."
        | ReadLoad content => onload file content
        end
      else Alerted "Please upload a valid CSV, Excel, or JSON file."
  end.

End Libraries.

End FileUploadStep.

(** ** The colours of a chart ([charts/ChartRenderer.tsx]) *)
Module ChartRenderer.

Definition COLORS : list string :=
  ["#0ea5e9"; "#84cc16"; "#f97316"; "#8b5cf6"; "#ec4899"; "#facc15"].

(** [COLORS[index % COLORS.length]], the fill of series or cell [index]. *)
Definition fill (index : nat) : option string :=
  COLORS !! (index `mod` length COLORS)%nat.

End ChartRenderer.

(** ** Sample data *)
Module Samples.
Import JS Types.

(** The numbers of the samples are small integers, which print in plain
    decimal. *)
Definition number (z : Z) : Number := {| Number_text := pretty z |}.

Definition record (id : Z) (val : string) : DataRecord :=
  <["id" := Num (number id)]> (<["val" := Str val]> ∅).

(** Three rows, of which the cleaning run removed the second. *)
Definition removed2 : RemovedRow :=
  {| originalRow := record 2 ""; reason := "missing value in val" |}.

Definition results : CleaningResults :=
  {| cleanedData := [record 1 "a"; record 3 "b"];
     changeLog := {| summary := "Removed 1 row with a missing value.";
                     removedRows := [removed2] |} |}.

(** One restore, undone: the past is empty and the future is not. *)
Definition restored_then_undone : DataCleaningStep.DataHistory :=
  DataCleaningStep.session (DataCleaningStep.initialize results)
    [DataCleaningStep.RestoreRow removed2 0; DataCleaningStep.Undo].

(** Twenty-five rows on show, the third page displayed. *)
Definition rows25 : list DataRecord :=
  map (λ i, record (Z.of_nat i) "a") (seq 1 25).

Definition third_page_of_25 : DashboardStep.Dashboard :=
  {| DashboardStep.cleanedData := rows25;
     DashboardStep.filters := ∅;
     DashboardStep.filteredData := rows25;
     DashboardStep.page := 2 |}.

(** Sales rows, and a selection of one country and one year. *)
Definition sale (country year : string) (amount : Z) : DataRecord :=
  <["country" := Str country]>
    (<["year" := Str year]> (<["amount" := Num (number amount)]> ∅)).

Definition sales : list DataRecord :=
  [sale "US" "2023" 5; sale "FR" "2023" 7; sale "US" "2022" 1;
   sale "US" "2023" 5; sale "US" "2023" 9].

Definition us_2023 : Filters :=
  <["country" := [Some (Str "US")]]>
    (<["year" := [Some (Str "2023")]]> (<["amount" := []]> ∅)).

Definition sales_dashboard : DashboardStep.Dashboard :=
  {| DashboardStep.cleanedData := sales;
     DashboardStep.filters := us_2023;
     DashboardStep.filteredData := sales;
     DashboardStep.page := 3 |}.

(** A column that opens with a string and goes on with numbers. *)
Definition labelled (v : Scalar) : DataRecord := {["label" := v]}.

Definition mixed : list DataRecord :=
  [labelled (Str "x"); labelled (Num (number 10)); labelled (Num (number 9))].

(** A record with a label and a record without. *)
Definition gappy : list DataRecord := [labelled (Str "a"); ∅].

(** An uploaded text of a header line and two records, one field in
    double quotes. *)
Definition quoted (s : string) : string :=
  String "034"%char (s +:+ String "034"%char EmptyString).

Definition newline : string := String "010"%char EmptyString.

Definition people_csv : string :=
  "name, city ,age" +:+ newline
  +:+ " Ann ," +:+ quoted "New York" +:+ ",30" +:+ newline
  +:+ "Bob,,".

(** A text whose first header is the name of the inherited accessor. *)
Definition proto_csv : string := "__proto__,b" +:+ newline +:+ "1,2".

(** The preview row of the last line of [people_csv]. *)
Definition bob_row : DataRecord :=
  <["name" := Str "Bob"]>
    (<["city" := Str EmptyString]> (<["age" := Str EmptyString]> ∅)).

(** A library call that always throws. *)
Definition no_library (input : string) : Thrown + string :=
  inl OtherValue.

End Samples.

(** * Properties *)

(** ** Array operations *)
Section ArrayFacts.
Import JS.
Context {A : Type}.
Implicit Types (arr : list A) (index : Z).

(** Dropping the element whose index equals [index] while counting from
    [from]: nothing is dropped when no position carries that index. *)
Lemma filter_from_out_of_range arr index (from : nat) :
  index < Z.of_nat from ∨ Z.of_nat (from + length arr) ≤ index →
  filter_from (λ (_ : A) i, negb (Z.of_nat i =? index)) from arr = arr.
Proof.
  revert from. induction arr as [|x rest IH]; intros from Hout; [done|].
  cbn [filter_from]. cbn [length] in Hout.
  destruct (Z.eqb_spec (Z.of_nat from) index) as [Heq|Hne]; [lia|].
  cbn. f_equal. apply IH. lia.
Qed.

Lemma filter_from_in_range arr (n from : nat) :
  (n < length arr)%nat →
  filter_from (λ (_ : A) i, negb (Z.of_nat i =? Z.of_nat (from + n))) from arr
  = take n arr ++ drop (S n) arr.
Proof.
  revert n from. induction arr as [|x rest IH]; intros n from Hn;
    cbn [length] in Hn; [lia|].
  cbn [filter_from].
  destruct n as [|n].
  - replace (from + 0)%nat with from by lia.
    rewrite Z.eqb_refl. cbn.
    apply filter_from_out_of_range. lia.
  - destruct (Z.eqb_spec (Z.of_nat from) (Z.of_nat (from + S n))); [lia|].
    cbn. f_equal.
    replace (from + S n)%nat with (S from + n)%nat by lia.
    apply IH. lia.
Qed.

Lemma Array_filter_indexed_skip arr (n : nat) :
  (n < length arr)%nat →
  Array_filter_indexed (λ (_ : A) i, negb (Z.of_nat i =? Z.of_nat n)) arr
  = take n arr ++ drop (S n) arr.
Proof. intros Hn. apply (filter_from_in_range arr n 0 Hn). Qed.

Lemma Array_filter_indexed_keep arr index :
  index < 0 ∨ Z.of_nat (length arr) ≤ index →
  Array_filter_indexed (λ (_ : A) i, negb (Z.of_nat i =? index)) arr = arr.
Proof. intros Hout. apply filter_from_out_of_range. cbn. lia. Qed.

Lemma Array_filter_indexed_without arr index :
  Array_filter_indexed (λ (_ : A) i, negb (Z.of_nat i =? index)) arr
  = DataCleaningStep.without_entry arr index.
Proof.
  unfold DataCleaningStep.without_entry. case_decide as Hsign.
  - destruct (decide (Z.to_nat index < length arr)%nat) as [Hin|Hout].
    + rewrite delete_take_drop.
      rewrite <- (Array_filter_indexed_skip arr (Z.to_nat index) Hin).
      by rewrite Z2Nat.id.
    + rewrite delete_take_drop, take_ge, drop_ge, app_nil_r by lia.
      apply Array_filter_indexed_keep. lia.
  - apply Array_filter_indexed_keep. lia.
Qed.

(** [arr.slice(a, b)] for bounds that need no clamping. *)
Lemma Array_slice_take_drop arr (a b : nat) :
  (a ≤ b ≤ length arr)%nat →
  Array_slice arr (Z.of_nat a) (Z.of_nat b) = take (b - a) (drop a arr).
Proof.
  intros Hab. unfold Array_slice.
  destruct (Z.ltb_spec (Z.of_nat a) 0); [lia|].
  destruct (Z.ltb_spec (Z.of_nat b) 0); [lia|].
  rewrite !Z.min_l by lia. f_equal; [lia|]. f_equal. lia.
Qed.

Lemma Array_slice_init arr x :
  Array_slice (arr ++ [x]) 0 (Z.of_nat (length (arr ++ [x])) - 1) = arr.
Proof.
  rewrite length_app. cbn [length].
  replace (Z.of_nat (length arr + 1) - 1) with (Z.of_nat (length arr)) by lia.
  change 0 with (Z.of_nat 0).
  rewrite (Array_slice_take_drop (arr ++ [x]) 0 (length arr)).
  - rewrite drop_0, Nat.sub_0_r. by rewrite take_app_length.
  - rewrite length_app. cbn. lia.
Qed.

Lemma Array_slice_from_tail arr x :
  Array_slice_from (x :: arr) 1 = arr.
Proof.
  unfold Array_slice_from. change 1 with (Z.of_nat 1).
  rewrite (Array_slice_take_drop (x :: arr) 1 (length (x :: arr))).
  - cbn. rewrite Nat.sub_0_r. apply firstn_all.
  - cbn. lia.
Qed.

(** A window of [n] positions starting at [a], bounds clamped. *)
Lemma Array_slice_window arr (a n : nat) :
  Array_slice arr (Z.of_nat a) (Z.of_nat (a + n)) = take n (drop a arr).
Proof.
  unfold Array_slice.
  destruct (Z.ltb_spec (Z.of_nat a) 0); [lia|].
  destruct (Z.ltb_spec (Z.of_nat (a + n)) 0); [lia|].
  destruct (decide (length arr ≤ a)%nat) as [Hshort|Hlong].
  - rewrite !Z.min_r by lia. rewrite Z.sub_diag, Nat2Z.id. cbn [Z.to_nat take].
    by rewrite (drop_ge arr a), take_nil.
  - rewrite (Z.min_l (Z.of_nat a)) by lia. rewrite Nat2Z.id.
    destruct (decide (a + n ≤ length arr)%nat).
    + rewrite Z.min_l by lia. f_equal. lia.
    + rewrite Z.min_r by lia.
      rewrite !take_ge; [done| |]; rewrite length_drop; lia.
Qed.

Lemma Math_ceil_div_bounds (a b : Z) :
  0 < b → b * (Math_ceil_div a b - 1) < a ≤ b * Math_ceil_div a b.
Proof.
  intros Hb. unfold Math_ceil_div.
  pose proof (Z.div_mod (- a) b ltac:(lia)).
  pose proof (Z.mod_pos_bound (- a) b Hb). nia.
Qed.

End ArrayFacts.

(** ** The history of a cleaning run *)
Section HistoryFacts.
Import JS Types DataCleaningStep.
Implicit Types (h : DataHistory) (s : CleaningState).

Lemma handleUndo_snoc ps p s f :
  handleUndo {| past := ps ++ [p]; present := s; future := f |}
  = {| past := ps; present := p; future := s :: f |}.
Proof.
  unfold handleUndo.
  destruct (Nat.eqb_spec (length (ps ++ [p])) 0) as [Hlen|_].
  { rewrite length_app in Hlen. cbn in Hlen. lia. }
  replace (length (ps ++ [p]) - 1)%nat with (length ps)
    by (rewrite length_app; cbn; lia).
  rewrite list_lookup_middle by done.
  by rewrite Array_slice_init.
Qed.

Lemma handleUndo_nil s f :
  handleUndo {| past := []; present := s; future := f |}
  = {| past := []; present := s; future := f |}.
Proof. done. Qed.

Lemma handleRedo_cons ps s n f :
  handleRedo {| past := ps; present := s; future := n :: f |}
  = {| past := ps ++ [s]; present := n; future := f |}.
Proof.
  unfold handleRedo. cbn [length Nat.eqb lookup list_lookup].
  by rewrite Array_slice_from_tail.
Qed.

Lemma handleRedo_nil ps s :
  handleRedo {| past := ps; present := s; future := [] |}
  = {| past := ps; present := s; future := [] |}.
Proof. done. Qed.

(** A list is empty or ends in a last element. *)
Lemma snoc_cases {A} (l : list A) : l = [] ∨ ∃ l' x, l = l' ++ [x].
Proof.
  induction l as [|x l' _] using rev_ind; [by left|right; eauto].
Qed.

(** C9. Undo with an empty past returns the history unchanged, and so does
    redo with an empty future; both handlers are total functions, so
    neither raises an error, whatever the history. *)
Theorem undo_redo_on_empty_stack_is_noop h :
  (past h = [] → handleUndo h = h) ∧ (future h = [] → handleRedo h = h).
Proof.
  destruct h as [ps s f]; cbn. split; intros ->; done.
Qed.

Lemma undo_redo_on_empty_stack_is_noop_witness :
  let h := initialize Samples.results in
  past h = [] ∧ future h = [] ∧ handleUndo h = h ∧ handleRedo h = h.
Proof.
  intros h.
  destruct (undo_redo_on_empty_stack_is_noop h) as [Hu Hr].
  split; [reflexivity|]. split; [reflexivity|].
  split; [apply Hu; reflexivity | apply Hr; reflexivity].
Defined.

(** C2, as amended. When the past is not empty, or the future is empty,
    undo followed by redo gives back the very history it started from:
    the same present, the same past and the same future.  When the past
    is empty and the future is not, the undo does nothing and the redo
    moves on to the first state of the future. *)
Theorem undo_then_redo_restores h :
  (past h ≠ [] ∨ future h = [] → handleRedo (handleUndo h) = h)
  ∧ (∀ next rest,
       past h = [] → future h = next :: rest →
       handleUndo h = h
       ∧ handleRedo (handleUndo h)
         = {| past := [present h]; present := next; future := rest |}).
Proof.
  destruct h as [ps s f]. cbn [past present future]. split.
  - intros Hcase.
    destruct (snoc_cases ps) as [->|(ps' & p & ->)].
    + destruct Hcase as [?| ->]; done.
    + by rewrite handleUndo_snoc, handleRedo_cons.
  - intros next rest -> ->.
    by rewrite handleUndo_nil, handleRedo_cons.
Qed.

Lemma undo_then_redo_restores_witness :
  let h := handleRestoreRow (initialize Samples.results) Samples.removed2 0 in
  let u := handleUndo h in
  past h ≠ [] ∧ handleRedo (handleUndo h) = h
  ∧ past u = [] ∧ future u = [present h]
  ∧ handleRedo (handleUndo u) = h.
Proof.
  intros h u.
  assert (Hpast : past h ≠ []) by (cbn; discriminate).
  assert (Hpast_u : past u = []) by reflexivity.
  assert (Hfut_u : future u = [present h]) by reflexivity.
  destruct (undo_then_redo_restores h) as [Hback _].
  destruct (undo_then_redo_restores u) as [_ Hon].
  destruct (Hon (present h) [] Hpast_u Hfut_u) as [_ Hforward].
  split; [exact Hpast|]. split; [apply Hback; left; exact Hpast|].
  split; [exact Hpast_u|]. split; [exact Hfut_u|].
  rewrite Hforward. reflexivity.
Defined.

(** C2, as stated, fails where undo has nothing to undo but redo has
    something to redo: after one restore and its undo, a second undo does
    nothing and the redo that follows replaces the present. *)
Lemma undo_then_redo_changes_present_at_empty_past :
  let h := Samples.restored_then_undone in
  past h = [] ∧ future h ≠ []
  ∧ present (handleRedo (handleUndo h)) ≠ present h.
Proof.
  cbn zeta. split; [reflexivity|]. split; [discriminate|].
  intros Heq. apply (f_equal (λ s, length (cleanedData s))) in Heq.
  vm_compute in Heq. discriminate.
Qed.

Lemma not_in_bounds h index :
  ¬ index_in_bounds h index →
  index < 0 ∨ Z.of_nat (length (removedRows (present h))) ≤ index.
Proof. unfold index_in_bounds. lia. Qed.

(** C1. Restoring a removed row, whether or not undos came before it:
    the new present has the old cleaned data with the restored row's
    original record appended at the end, and the old removed rows without
    the entry at the given index; the old present is pushed onto the
    past and the future is cleared, so a redo that follows changes
    nothing. *)
Theorem restore_row_appends_and_clears_future
    (h0 : DataHistory) (undos : nat) (rowToRestore : RemovedRow) (index : Z) :
  let h := Nat.iter undos handleUndo h0 in
  let h' := handleRestoreRow h rowToRestore index in
  cleanedData (present h')
    = cleanedData (present h) ++ [originalRow rowToRestore]
  ∧ removedRows (present h') = without_entry (removedRows (present h)) index
  ∧ (∀ i : nat, index = Z.of_nat i →
       (i < length (removedRows (present h)))%nat →
       removedRows (present h')
       = take i (removedRows (present h))
         ++ drop (S i) (removedRows (present h)))
  ∧ past h' = past h ++ [present h]
  ∧ future h' = []
  ∧ handleRedo h' = h'.
Proof.
  intros h h'. subst h'. generalize h. clear h. intros h.
  unfold handleRestoreRow. cbn [present past future cleanedData removedRows].
  split; [done|]. split; [|split; [|done]].
  - apply Array_filter_indexed_without.
  - intros i -> Hi. by apply Array_filter_indexed_skip.
Qed.

Lemma restore_row_appends_and_clears_future_witness :
  let h0 := handleRestoreRow (initialize Samples.results) Samples.removed2 0 in
  let h := Nat.iter 1 handleUndo h0 in
  let h' := handleRestoreRow h Samples.removed2 0 in
  removedRows (present h) = [Samples.removed2]
  ∧ cleanedData (present h')
    = cleanedData (present h) ++ [originalRow Samples.removed2]
  ∧ removedRows (present h') = []
  ∧ future h ≠ [] ∧ future h' = []
  ∧ handleRedo h' = h'.
Proof.
  intros h0 h h'.
  destruct (restore_row_appends_and_clears_future
              h0 1 Samples.removed2 0) as (Hc & _ & Hr & _ & Hf & Hredo).
  split; [reflexivity|]. split; [exact Hc|].
  split; [apply (Hr 0%nat); [reflexivity | cbn; lia]|].
  split; [discriminate|]. split; [exact Hf | exact Hredo].
Defined.

(** C4, as amended. A restore whose index is out of range raises no error
    and leaves the removed rows as they are; it still appends the row it
    was handed to the cleaned data, pushes the old present onto the past
    and clears the future. *)
Theorem restore_row_out_of_range_keeps_removed_rows
    h (rowToRestore : RemovedRow) (index : Z) :
  ¬ index_in_bounds h index →
  let h' := handleRestoreRow h rowToRestore index in
  removedRows (present h') = removedRows (present h)
  ∧ cleanedData (present h')
    = cleanedData (present h) ++ [originalRow rowToRestore]
  ∧ past h' = past h ++ [present h]
  ∧ future h' = [].
Proof.
  intros Hout%not_in_bounds h'. subst h'.
  unfold handleRestoreRow. cbn [present past future cleanedData removedRows].
  by rewrite Array_filter_indexed_keep.
Qed.

Lemma restore_row_out_of_range_keeps_removed_rows_witness :
  let h := Samples.restored_then_undone in
  let h' := handleRestoreRow h Samples.removed2 5 in
  ¬ index_in_bounds h 5
  ∧ removedRows (present h') = removedRows (present h)
  ∧ length (cleanedData (present h')) = S (length (cleanedData (present h))).
Proof.
  intros h h'.
  assert (Hout : ¬ index_in_bounds h 5).
  { unfold index_in_bounds. cbn. lia. }
  destruct (restore_row_out_of_range_keeps_removed_rows
              h Samples.removed2 5 Hout) as (Hr & Hc & _).
  split; [exact Hout|]. split; [exact Hr|].
  fold h' in Hc. rewrite Hc, length_app. cbn. lia.
Defined.

(** C4, as stated, fails: with one removed row displayed, a restore at
    index 5 is not a no-op.  The cleaned data grows by the row handed
    over, the past grows by the old present, and the future is dropped. *)
Lemma restore_row_out_of_range_is_not_noop :
  let h := Samples.restored_then_undone in
  let h' := handleRestoreRow h Samples.removed2 5 in
  ¬ index_in_bounds h 5
  ∧ cleanedData (present h') ≠ cleanedData (present h)
  ∧ past h' ≠ past h
  ∧ future h' ≠ future h.
Proof.
  cbn zeta. split; [unfold index_in_bounds; cbn; lia|].
  split; [|split].
  - intros Heq. apply (f_equal length) in Heq. vm_compute in Heq.
    discriminate.
  - intros Heq. apply (f_equal length) in Heq. vm_compute in Heq.
    discriminate.
  - intros Heq. apply (f_equal length) in Heq. vm_compute in Heq.
    discriminate.
Qed.

(** *** Conservation of rows *)

Lemma conserves_initialize results :
  conserves (row_count (present (initialize results))) (initialize results).
Proof. repeat split; constructor. Qed.

Lemma conserves_restore n h rowToRestore index :
  index_in_bounds h index →
  conserves n h → conserves n (handleRestoreRow h rowToRestore index).
Proof.
  intros Hin (Hpast & Hpres & _).
  unfold handleRestoreRow, conserves.
  cbn [past present future].
  split; [|split].
  - apply Forall_app. split; [done|]. by constructor.
  - unfold index_in_bounds in Hin.
    replace index with (Z.of_nat (Z.to_nat index)) by lia.
    unfold row_count in *. cbn [cleanedData removedRows].
    rewrite Array_filter_indexed_skip by lia.
    rewrite !length_app, length_take, length_drop. cbn [length]. lia.
  - constructor.
Qed.

Lemma conserves_undo n h : conserves n h → conserves n (handleUndo h).
Proof.
  destruct h as [ps s f].
  destruct (snoc_cases ps) as [->|(ps' & p & ->)]; [done|].
  rewrite handleUndo_snoc. unfold conserves. cbn [past present future].
  intros (Hpast & Hpres & Hfut).
  apply Forall_app in Hpast as [Hps' Hp].
  rewrite Forall_singleton in Hp.
  split; [exact Hps'|]. split; [exact Hp|]. by constructor.
Qed.

Lemma conserves_redo n h : conserves n h → conserves n (handleRedo h).
Proof.
  destruct h as [ps s [|x f]]; [done|].
  rewrite handleRedo_cons. unfold conserves. cbn [past present future].
  intros (Hpast & Hpres & Hfut).
  apply Forall_cons in Hfut as [Hx Hf].
  split; [|done].
  apply Forall_app. split; [done|]. by constructor.
Qed.

Lemma conserves_session n actions :
  ∀ h, conserves n h → restores_in_bounds h actions →
       conserves n (session h actions).
Proof.
  induction actions as [|a rest IH]; intros h Hc Hb; [done|].
  cbn in Hb. destruct Hb as [Ha Hrest].
  cbn [session foldl]. apply IH; [|done].
  destruct a as [r i| |]; cbn [act].
  - by apply conserves_restore.
  - by apply conserves_undo.
  - by apply conserves_redo.
Qed.

(** C3. From the history installed when the cleaning run completes, any
    sequence of restores (each with an index within the removed rows then
    displayed), undos and redos leaves the number of cleaned rows plus the
    number of removed rows equal to the total the run delivered. *)
Theorem row_count_is_conserved
    (results : CleaningResults) (actions : list Action) :
  restores_in_bounds (initialize results) actions →
  let now := present (session (initialize results) actions) in
  (length (cleanedData now) + length (removedRows now))%nat
  = (length (Types.cleanedData results)
     + length (Types.removedRows (Types.changeLog results)))%nat.
Proof.
  intros Hb now.
  pose proof (conserves_session _ actions _
                (conserves_initialize results) Hb) as (_ & Hpres & _).
  exact Hpres.
Qed.

Lemma row_count_is_conserved_witness :
  let actions :=
    [RestoreRow Samples.removed2 0; Undo; Undo; Redo; Redo; Undo;
     RestoreRow Samples.removed2 0] in
  let now := present (session (initialize Samples.results) actions) in
  restores_in_bounds (initialize Samples.results) actions
  ∧ (length (cleanedData now) + length (removedRows now))%nat = 3%nat.
Proof.
  intros actions now.
  assert (Hb : restores_in_bounds (initialize Samples.results) actions).
  { unfold actions. cbn [restores_in_bounds]. unfold index_in_bounds.
    repeat split; vm_compute; try reflexivity; discriminate. }
  split; [exact Hb|].
  exact (row_count_is_conserved Samples.results actions Hb).
Defined.

End HistoryFacts.

(** ** The pager *)
Section PagerFacts.
Import JS Types DashboardStep.
Implicit Types (d : Dashboard).

Lemma paginatedData_window d (p : nat) :
  page d = Z.of_nat p →
  paginatedData d = take 10 (drop (p * 10) (filteredData d)).
Proof.
  intros Hp. unfold paginatedData, rowsPerPage. rewrite Hp.
  replace (Z.of_nat p * 10) with (Z.of_nat (p * 10)) by lia.
  replace ((Z.of_nat p + 1) * 10) with (Z.of_nat (p * 10 + 10)) by lia.
  apply Array_slice_window.
Qed.

(** C8. With ten rows per page: the page displayed is the window of the
    filtered rows from [page * 10] up to [(page + 1) * 10], cut at the end
    of the rows; the page count is the ceiling of a tenth of their number;
    next stops at [pageCount - 1] and previous at [0].  For 25 rows there
    are 3 pages, page 0 shows 10 rows, page 2 shows 5, and next from page
    2 stays on page 2. *)
Theorem pages_are_windows_of_ten_and_navigation_clamps d :
  (∀ p : nat, page d = Z.of_nat p →
     paginatedData d = take 10 (drop (p * 10) (filteredData d))
     ∧ (∀ i : nat, paginatedData d !! i
                   = if decide (i < 10)%nat
                     then filteredData d !! (p * 10 + i)%nat else None))
  ∧ 10 * (pageCount d - 1) < Z.of_nat (length (filteredData d))
      ≤ 10 * pageCount d
  ∧ (page (next d) ≤ pageCount d - 1
     ∧ (page d + 1 ≤ pageCount d - 1 → page (next d) = page d + 1)
     ∧ (pageCount d - 1 ≤ page d + 1 → page (next d) = pageCount d - 1))
  ∧ (0 ≤ page (previous d)
     ∧ (1 ≤ page d → page (previous d) = page d - 1)
     ∧ (page d ≤ 1 → page (previous d) = 0))
  ∧ (length (filteredData d) = 25%nat →
     pageCount d = 3
     ∧ (page d = 0 → length (paginatedData d) = 10%nat)
     ∧ (page d = 2 →
        length (paginatedData d) = 5%nat ∧ page (next d) = 2)).
Proof.
  assert (Hceil := Math_ceil_div_bounds
                     (Z.of_nat (length (filteredData d))) 10 ltac:(lia)).
  fold rowsPerPage in Hceil. fold (pageCount d) in Hceil.
  unfold rowsPerPage in Hceil.
  split; [|split; [|split; [|split]]].
  - intros p Hp. split; [by apply paginatedData_window|].
    intros i. rewrite (paginatedData_window d p Hp).
    case_decide.
    + rewrite lookup_take_lt by done. by rewrite lookup_drop.
    + apply lookup_take_ge. lia.
  - exact Hceil.
  - cbn [next page]. lia.
  - cbn [previous page]. lia.
  - intros Hlen. rewrite Hlen in Hceil.
    assert (Hpc : pageCount d = 3) by lia.
    split; [exact Hpc|]. split.
    + intros Hp. rewrite (paginatedData_window d 0 Hp).
      rewrite length_take, length_drop. lia.
    + intros Hp. rewrite (paginatedData_window d 2 Hp).
      rewrite length_take, length_drop. cbn [next page]. lia.
Qed.

Lemma pages_are_windows_of_ten_and_navigation_clamps_witness :
  let d := Samples.third_page_of_25 in
  length (filteredData d) = 25%nat ∧ page d = 2
  ∧ pageCount d = 3
  ∧ length (paginatedData d) = 5%nat
  ∧ paginatedData d = drop 20 (filteredData d)
  ∧ page (next d) = 2
  ∧ page (previous d) = 1.
Proof.
  intros d.
  assert (Hlen : length (filteredData d) = 25%nat) by reflexivity.
  assert (Hp : page d = 2) by reflexivity.
  destruct (pages_are_windows_of_ten_and_navigation_clamps d)
    as (Hwin & _ & _ & (_ & Hprev & _) & H25).
  destruct (H25 Hlen) as (Hpc & _ & Hlast).
  destruct (Hlast Hp) as [Hfive Hnext].
  destruct (Hwin 2%nat Hp) as [Hslice _].
  split; [exact Hlen|]. split; [exact Hp|]. split; [exact Hpc|].
  split; [exact Hfive|]. split; [rewrite Hslice; reflexivity|].
  split; [exact Hnext|]. rewrite Hprev; [reflexivity|]. rewrite Hp. lia.
Defined.

End PagerFacts.

(** ** The filtered view *)
Section FilterFacts.
Import JS Types DashboardStep.
Implicit Types (d : Dashboard) (F : Filters) (row : DataRecord).

Lemma elem_of_Object_keys {V} (o : gmap string V) (k : string) :
  k ∈ Object_keys o ↔ is_Some (o !! k).
Proof.
  unfold Object_keys. rewrite list_elem_of_fmap. split.
  - intros ([k' v] & -> & Hin). apply elem_of_map_to_list in Hin. by exists v.
  - intros [v Hv]. exists (k, v). split; [done|].
    by apply elem_of_map_to_list.
Qed.

Lemma filter_keeps_all {A} (P : A → Prop) `{∀ x, Decision (P x)}
    (l : list A) :
  (∀ x, P x) → filter P l = l.
Proof.
  intros HP. induction l as [|x l IH]; [done|].
  rewrite filter_cons_True by done. by rewrite IH.
Qed.

Lemma elem_of_Array_filter {A} (p : A → bool) (arr : list A) (x : A) :
  x ∈ Array_filter p arr ↔ p x = true ∧ x ∈ arr.
Proof.
  unfold Array_filter. rewrite list_elem_of_filter.
  by rewrite Is_true_true.
Qed.

(** The selection read in [activeFilters] is never [undefined]. *)
Lemma filters_read_defined F key :
  key ∈ Object_keys F → ∃ sel, F !! key = Some sel ∧ selection F key = sel.
Proof.
  intros [sel Hsel]%elem_of_Object_keys. exists sel.
  unfold selection. by rewrite Hsel.
Qed.

Lemma elem_of_activeFilters F key :
  key ∈ activeFilters F ↔ ∃ sel, F !! key = Some sel ∧ sel ≠ [].
Proof.
  unfold activeFilters. rewrite elem_of_Array_filter, elem_of_Object_keys.
  unfold selection. split.
  - intros [Hlen [sel Hsel]]. exists sel. split; [done|].
    rewrite Hsel in Hlen. cbn in Hlen. by destruct sel.
  - intros (sel & Hsel & Hne). rewrite Hsel. cbn. split; [|by eexists].
    destruct sel; [done|]. reflexivity.
Qed.

(** The test the code applies to a row is the selection predicate. *)
Lemma every_active_includes_iff F row :
  Array_every
    (λ key, Array_includes (selection F key) (row !! key))
    (activeFilters F) = true
  ↔ passes F row.
Proof.
  unfold Array_every, Array_includes, passes.
  rewrite forallb_forall, map_Forall_lookup. split.
  - intros Hall c sel Hsel Hne.
    assert (Hact : c ∈ activeFilters F)
      by (apply elem_of_activeFilters; eauto).
    apply list_elem_of_In, Hall in Hact.
    apply bool_decide_eq_true in Hact.
    unfold selection in Hact. by rewrite Hsel in Hact.
  - intros Hpass key [sel [Hsel Hne]]%list_elem_of_In%elem_of_activeFilters.
    apply bool_decide_eq_true. unfold selection. rewrite Hsel. cbn.
    by apply (Hpass key).
Qed.

Lemma filteredData_recompute d :
  filteredData (recompute d) = filter (passes (filters d)) (cleanedData d).
Proof.
  unfold recompute.
  destruct (Nat.eqb_spec (length (activeFilters (filters d))) 0)
    as [Hnone|_]; cbn [filteredData].
  - apply nil_length_inv in Hnone.
    symmetry. apply filter_keeps_all. intros row.
    rewrite <- every_active_includes_iff, Hnone. reflexivity.
  - unfold Array_filter. apply list_filter_iff. intros row.
    rewrite Is_true_true. apply every_active_includes_iff.
Qed.

(** C5. The filtered view is the cleaned dataset restricted, in place, to
    the rows that have, for every column with a non-empty selection, a
    value among the selected ones.  A column without a selection, or with
    an empty one, does not appear in the condition, and when all
    selections are empty the view is the dataset itself. *)
Theorem filtered_view_is_the_selected_rows d :
  filteredData (recompute d) = filter (passes (filters d)) (cleanedData d)
  ∧ (∀ row,
       row ∈ filteredData (recompute d)
       ↔ row ∈ cleanedData d
         ∧ ∀ c sel, filters d !! c = Some sel → sel ≠ [] → row !! c ∈ sel)
  ∧ ((∀ c sel, filters d !! c = Some sel → sel = []) →
     filteredData (recompute d) = cleanedData d).
Proof.
  split; [apply filteredData_recompute|]. split.
  - intros row. rewrite filteredData_recompute, list_elem_of_filter.
    unfold passes. rewrite map_Forall_lookup. tauto.
  - intros Hempty. rewrite filteredData_recompute.
    apply filter_keeps_all. intros row.
    apply map_Forall_lookup. intros c sel Hsel Hne.
    by apply Hempty in Hsel.
Qed.

Lemma filtered_view_is_the_selected_rows_witness :
  let d := Samples.sales_dashboard in
  let unfiltered :=
    {| cleanedData := Samples.sales; filters := {["amount" := []]};
       filteredData := []; page := 0 |} in
  filteredData (recompute d)
  = [Samples.sale "US" "2023" 5; Samples.sale "US" "2023" 5;
     Samples.sale "US" "2023" 9]
  ∧ (∀ c sel, filters unfiltered !! c = Some sel → sel = [])
  ∧ filteredData (recompute unfiltered) = Samples.sales.
Proof.
  intros d unfiltered.
  assert (Hempty : ∀ c sel, filters unfiltered !! c = Some sel → sel = []).
  { intros c sel. cbn [filters unfiltered].
    intros [_ Hsel]%lookup_singleton_Some. by symmetry. }
  destruct (filtered_view_is_the_selected_rows d) as (Heq & _ & _).
  destruct (filtered_view_is_the_selected_rows unfiltered) as (_ & _ & Hall).
  split; [rewrite Heq; vm_compute; reflexivity|].
  split; [exact Hempty | exact (Hall Hempty)].
Defined.

Lemma occurrences_filter (P : DataRecord → Prop) `{∀ x, Decision (P x)}
    (D : list DataRecord) row :
  occurrences row (filter P D)
  = if decide (P row) then occurrences row D else 0%nat.
Proof.
  unfold occurrences. rewrite list_filter_filter.
  case_decide as HP.
  - f_equal. apply list_filter_iff. intros r. split; [tauto|].
    intros ->. done.
  - replace (filter (λ r, r = row ∧ P r) D) with (@nil DataRecord); [done|].
    symmetry. induction D as [|r D IH]; [done|].
    rewrite filter_cons_False; [done|]. intros [-> ?]. done.
Qed.

(** C10. Whatever the selection, the filtered view is a subsequence of the
    cleaned dataset: the rows kept stand in the order they had, a row that
    passes occurs as often as in the dataset and a row that does not
    pass occurs not at all; the recomputation hands back the dataset
    and the selection it was given. *)
Theorem filtered_view_is_an_order_preserving_subsequence d :
  filteredData (recompute d) `sublist_of` cleanedData d
  ∧ (∀ row,
       occurrences row (filteredData (recompute d))
       = if decide (passes (filters d) row)
         then occurrences row (cleanedData d) else 0%nat)
  ∧ (∀ row,
       row ∈ filteredData (recompute d) →
       occurrences row (filteredData (recompute d))
       = occurrences row (cleanedData d))
  ∧ cleanedData (recompute d) = cleanedData d
  ∧ filters (recompute d) = filters d.
Proof.
  rewrite filteredData_recompute.
  split; [apply sublist_filter|]. split; [|split; [|split]].
  - intros row. apply occurrences_filter.
  - intros row [Hpass _]%list_elem_of_filter.
    rewrite occurrences_filter. by rewrite decide_True.
  - unfold recompute. by case_match.
  - unfold recompute. by case_match.
Qed.

Lemma filtered_view_is_an_order_preserving_subsequence_witness :
  let d := Samples.sales_dashboard in
  let twice := Samples.sale "US" "2023" 5 in
  twice ∈ filteredData (recompute d)
  ∧ occurrences twice (filteredData (recompute d)) = 2%nat
  ∧ occurrences twice (cleanedData d) = 2%nat
  ∧ filteredData (recompute d) `sublist_of` cleanedData d.
Proof.
  intros d twice.
  destruct (filtered_view_is_an_order_preserving_subsequence d)
    as (Hsub & _ & Hocc & _).
  assert (Hin : twice ∈ filteredData (recompute d)).
  { rewrite filteredData_recompute. apply list_elem_of_filter.
    split; [|by left].
    apply (bool_decide_eq_true_1 (passes (filters d) twice)).
    vm_compute. reflexivity. }
  split; [exact Hin|].
  split; [rewrite (Hocc twice Hin); reflexivity|].
  split; [reflexivity | exact Hsub].
Defined.

End FilterFacts.

(** ** Sets and the default sort *)
Section SetAndSortFacts.
Import JS.
Implicit Types (s l : list Value) (v x y z : Value).

Lemma elem_of_Set_add s v x : x ∈ Set_add s v ↔ x ∈ s ∨ x = v.
Proof.
  unfold Set_add. case_bool_decide as Hin.
  - split; [by left|]. intros [?| ->]; done.
  - rewrite elem_of_app, list_elem_of_singleton. done.
Qed.

Lemma NoDup_Set_add s v : NoDup s → NoDup (Set_add s v).
Proof.
  intros Hs. unfold Set_add. case_bool_decide as Hin; [done|].
  apply NoDup_app. split; [done|]. split; [|apply NoDup_singleton].
  intros x Hx ->%list_elem_of_singleton. done.
Qed.

Lemma Set_add_all s l :
  NoDup s →
  NoDup (foldl Set_add s l) ∧ ∀ x, x ∈ foldl Set_add s l ↔ x ∈ s ∨ x ∈ l.
Proof.
  revert s. induction l as [|v l IH]; intros s Hs; cbn [foldl].
  - split; [done|]. intros x. rewrite elem_of_nil. tauto.
  - destruct (IH (Set_add s v) (NoDup_Set_add s v Hs)) as [Hnd Hel].
    split; [done|]. intros x.
    rewrite Hel, elem_of_Set_add, elem_of_cons. tauto.
Qed.

Lemma NoDup_Set_new l : NoDup (Set_new l).
Proof. apply (Set_add_all [] l), NoDup_nil_2. Qed.

Lemma elem_of_Set_new l x : x ∈ Set_new l ↔ x ∈ l.
Proof.
  unfold Set_new.
  rewrite (proj2 (Set_add_all [] l (NoDup_nil_2)) x), elem_of_nil. tauto.
Qed.

(** The size of the set is the number of different values put in. *)
Lemma Set_size_Set_new l : Set_size (Set_new l) = length (remove_dups l).
Proof.
  unfold Set_size. apply Permutation_length, NoDup_Permutation.
  - apply NoDup_Set_new.
  - apply NoDup_remove_dups.
  - intros x. by rewrite elem_of_Set_new, elem_of_remove_dups.
Qed.

(** Comparing strings by character code is a total order. *)
Lemma String_compare_le_trans (a b c : string) :
  String.compare a b ≠ Gt → String.compare b c ≠ Gt →
  String.compare a c ≠ Gt.
Proof.
  revert b c. induction a as [|ca a IH]; intros b c.
  { destruct c; done. }
  destruct b as [|cb b]; [done|]. destruct c as [|cc c]; [done|].
  cbn [String.compare]. unfold Ascii.compare.
  destruct (N.compare_spec (Ascii.N_of_ascii ca) (Ascii.N_of_ascii cb));
    destruct (N.compare_spec (Ascii.N_of_ascii cb) (Ascii.N_of_ascii cc));
    destruct (N.compare_spec (Ascii.N_of_ascii ca) (Ascii.N_of_ascii cc));
    try done; try lia.
  apply IH.
Qed.

Lemma SortCompare_antisym x y : SortCompare x y = CompOpp (SortCompare y x).
Proof.
  destruct x as [a|], y as [b|]; try done. apply String.compare_antisym.
Qed.

Lemma text_le_total x y : SortCompare x y = Gt → SortCompare y x ≠ Gt.
Proof.
  rewrite (SortCompare_antisym y x). intros ->. done.
Qed.

Lemma text_le_trans x y z :
  SortCompare x y ≠ Gt → SortCompare y z ≠ Gt → SortCompare x z ≠ Gt.
Proof.
  destruct x as [a|], y as [b|], z as [c|]; try done.
  apply String_compare_le_trans.
Qed.

Lemma sort_insert_Permutation x l : sort_insert x l ≡ₚ x :: l.
Proof.
  induction l as [|y l IH]; [done|]. cbn [sort_insert].
  destruct (SortCompare x y); [done|done|].
  rewrite IH. apply Permutation_swap.
Qed.

Lemma Array_sort_Permutation l : Array_sort l ≡ₚ l.
Proof.
  induction l as [|x l IH]; [done|]. cbn [Array_sort foldr].
  rewrite sort_insert_Permutation. by constructor.
Qed.

Lemma sort_insert_sorted x l :
  StronglySorted (λ a b, SortCompare a b ≠ Gt) l →
  StronglySorted (λ a b, SortCompare a b ≠ Gt) (sort_insert x l).
Proof.
  induction l as [|y l IH]; intros Hl; cbn [sort_insert].
  { repeat constructor. }
  apply StronglySorted_cons in Hl as [Hy Hl].
  assert (Hle : SortCompare x y ≠ Gt →
                StronglySorted (λ a b, SortCompare a b ≠ Gt) (x :: y :: l)).
  { intros Hxy. apply StronglySorted_cons. split.
    - constructor; [done|].
      eapply Forall_impl; [exact Hy|]. intros z Hyz.
      by apply (text_le_trans x y z).
    - by apply StronglySorted_cons. }
  destruct (SortCompare x y) eqn:Hxy; [by apply Hle|by apply Hle|].
  apply StronglySorted_cons. split; [|by apply IH].
  rewrite sort_insert_Permutation. constructor; [|done].
  by apply text_le_total.
Qed.

Lemma Array_sort_sorted l :
  StronglySorted (λ a b, SortCompare a b ≠ Gt) (Array_sort l).
Proof.
  induction l as [|x l IH]; [constructor|].
  cbn [Array_sort foldr]. by apply sort_insert_sorted.
Qed.

(** In a sorted list an earlier position holds the lesser element. *)
Lemma StronglySorted_positions {A} (R : relation A) (l : list A)
    (i j : nat) (a b : A) :
  StronglySorted R l → (i < j)%nat →
  l !! i = Some a → l !! j = Some b → R a b.
Proof.
  intros Hs Hij Hi Hj.
  rewrite <- (take_drop j l) in Hs.
  eapply StronglySorted_app_1_elem_of; [exact Hs| |].
  - apply elem_of_take. eauto.
  - apply list_elem_of_lookup. exists 0%nat.
    rewrite lookup_drop, Nat.add_0_r. done.
Qed.

End SetAndSortFacts.

(** ** Filterable columns and their values *)
Section ColumnFacts.
Import JS Types DashboardStep.
Implicit Types (D : list DataRecord) (c : string).

Lemma typeof_string_is_Some (o : DataRecord) c :
  typeof_string (o !! c) = true → c ∈ Object_keys o.
Proof.
  intros Hty. apply elem_of_Object_keys.
  destruct (o !! c); [by eexists|done].
Qed.

Lemma Set_size_uniqueValues D c :
  Set_size (uniqueValues D c) = distinct_count D c.
Proof. apply Set_size_Set_new. Qed.

Lemma length_remove_dups_option {A} `{EqDecision A} (l : list (option A)) :
  length (remove_dups l)
  = (length (remove_dups (omap id l))
     + (if bool_decide (None ∈ l) then 1 else 0))%nat.
Proof.
  set (k := (Some <$> remove_dups (omap id l))
            ++ (if bool_decide (None ∈ l) then [None] else [])).
  assert (Hlen : length k
                 = (length (remove_dups (omap id l))
                    + (if bool_decide (None ∈ l) then 1 else 0))%nat).
  { unfold k. rewrite length_app, length_fmap. by case_bool_decide. }
  rewrite <- Hlen. apply Permutation_length, NoDup_Permutation.
  - apply NoDup_remove_dups.
  - unfold k. apply NoDup_app. split; [|split].
    + apply (NoDup_fmap_2 Some), NoDup_remove_dups.
    + intros x (a & -> & _)%list_elem_of_fmap.
      case_bool_decide; [|apply not_elem_of_nil].
      by intros ?%list_elem_of_singleton.
    + case_bool_decide; [apply NoDup_singleton | apply NoDup_nil_2].
  - intros x. rewrite elem_of_remove_dups. unfold k.
    rewrite elem_of_app, list_elem_of_fmap. split.
    + intros Hx. destruct x as [a|].
      * left. exists a. split; [done|].
        apply elem_of_remove_dups, list_elem_of_omap. by exists (Some a).
      * right. rewrite bool_decide_eq_true_2 by done. by left.
    + intros [(a & -> & Ha)|Hnone].
      * apply elem_of_remove_dups, list_elem_of_omap in Ha
          as ([b|] & Hb & [= ->]). done.
      * case_bool_decide as Hin; [|by apply not_elem_of_nil in Hnone].
        by apply list_elem_of_singleton in Hnone as ->.
Qed.

Lemma distinct_count_values D c :
  distinct_count D c
  = (distinct_values D c + (if has_gap D c then 1 else 0))%nat.
Proof.
  unfold distinct_count, distinct_values, has_gap.
  rewrite length_remove_dups_option. do 3 f_equal.
  induction D as [|row D IH]; [done|]. cbn.
  destruct (row !! c); cbn; by rewrite IH.
Qed.

(** C6, as amended. A column is offered as a filter exactly when its
    value in the first record is a string and the reads of the column
    over the whole dataset have more than one and at most fifty
    different results, where the records that lack the column count
    together as one more result beside the different values. *)
Theorem column_is_filterable_iff D c :
  (c ∈ categoricalColumns D
   ↔ typeof_string (first_value D c) = true
     ∧ (1 < distinct_count D c ≤ 50)%nat)
  ∧ distinct_count D c
    = (distinct_values D c + (if has_gap D c then 1 else 0))%nat.
Proof.
  split; [|apply distinct_count_values].
  destruct D as [|first rest].
  { cbn. rewrite elem_of_nil. split; [done|]. intros [? _]. done. }
  unfold categoricalColumns, first_value. cbn [lookup list_lookup mbind option_bind].
  rewrite elem_of_Array_filter, Set_size_uniqueValues.
  destruct (typeof_string (first !! c)) eqn:Hty; cbn [negb].
  - rewrite andb_true_iff, Nat.ltb_lt, Nat.leb_le.
    pose proof (typeof_string_is_Some first c Hty). tauto.
  - split; intros [? _]; done.
Qed.

Lemma column_is_filterable_iff_witness :
  "country" ∈ categoricalColumns Samples.sales
  ∧ ("amount" ∉ categoricalColumns Samples.sales)
  ∧ typeof_string (first_value Samples.sales "amount") = false
  ∧ distinct_count Samples.sales "country" = 2%nat
  ∧ distinct_values Samples.sales "country" = 2%nat.
Proof.
  destruct (column_is_filterable_iff Samples.sales "country")
    as [Hcountry Hcount].
  destruct (column_is_filterable_iff Samples.sales "amount")
    as [Hamount _].
  split; [|split; [|split; [|split]]].
  - apply (proj2 Hcountry).
    split; [reflexivity|]. vm_compute. lia.
  - intros [Hty _]%(proj1 Hamount).
    vm_compute in Hty. discriminate.
  - reflexivity.
  - reflexivity.
  - reflexivity.
Defined.

(** C6, as stated, fails on a dataset with a gap: a column with the one
    value "a" in the first record and no value in the second is offered,
    the missing value making the second of two results. *)
Lemma column_with_one_value_and_a_gap_is_offered :
  "label" ∈ categoricalColumns Samples.gappy
  ∧ typeof_string (first_value Samples.gappy "label") = true
  ∧ distinct_values Samples.gappy "label" = 1%nat
  ∧ ¬ (1 < distinct_values Samples.gappy "label" ≤ 50)%nat.
Proof.
  split; [|split; [|split]].
  - apply (bool_decide_eq_true_1 _). vm_compute. reflexivity.
  - reflexivity.
  - reflexivity.
  - vm_compute. lia.
Qed.

(** What [uniqueFilterValues] holds for a column. *)
Lemma lookup_fold_assign {V} (f : string → V) (cols : list string)
    (values : gmap string V) c :
  foldl (λ values col, <[col := f col]> values) values cols !! c
  = if decide (c ∈ cols) then Some (f c) else values !! c.
Proof.
  revert values. induction cols as [|col cols IH]; intros values;
    cbn [foldl].
  { rewrite decide_False; [done|]. apply not_elem_of_nil. }
  rewrite IH. destruct (decide (c ∈ cols)) as [Hin|Hnin].
  - rewrite decide_True; [done|]. by right.
  - destruct (decide (c = col)) as [->|Hne].
    + rewrite decide_True by left. by rewrite lookup_insert_eq.
    + rewrite decide_False by (intros [?|?]%elem_of_cons; done).
      by rewrite lookup_insert_ne.
Qed.

Lemma lookup_uniqueFilterValues D c :
  uniqueFilterValues D !! c
  = if decide (c ∈ categoricalColumns D)
    then Some (Array_sort (uniqueValues D c)) else None.
Proof.
  unfold uniqueFilterValues.
  rewrite (lookup_fold_assign (λ col, Array_sort (uniqueValues D col))).
  case_decide; [done|]. apply lookup_empty.
Qed.

(** C7, as amended. For a filterable column, whose name is not one that
    every object inherits, the values offered are the different values
    the column takes in the dataset, each once, in ascending order of
    their text compared by character code, a missing value last.  So
    strings stand in lexical order, and numbers stand in the order of
    the text they print as. *)
Theorem filter_values_are_distinct_and_sorted_as_text D c :
  c ∈ categoricalColumns D →
  c ∉ Object_prototype_members →
  ∃ vals,
    uniqueFilterValues D !! c = Some vals
    ∧ NoDup vals
    ∧ (∀ v, v ∈ vals ↔ ∃ row, row ∈ D ∧ row !! c = v)
    ∧ StronglySorted text_le vals
    ∧ (∀ (i j : nat) a b, (i < j)%nat →
         vals !! i = Some (Some (Str a)) → vals !! j = Some (Some (Str b)) →
         String.leb a b = true)
    ∧ (∀ (i j : nat) m n, (i < j)%nat →
         vals !! i = Some (Some (Num m)) → vals !! j = Some (Some (Num n)) →
         String.leb (Number_text m) (Number_text n) = true)
    ∧ (∀ (i j : nat) w, (i < j)%nat →
         vals !! i = Some None → vals !! j = Some w → w = None).
Proof.
  intros Hc _. exists (Array_sort (uniqueValues D c)).
  assert (Hsorted : StronglySorted text_le (Array_sort (uniqueValues D c)))
    by apply Array_sort_sorted.
  split; [by rewrite lookup_uniqueFilterValues, decide_True|].
  split; [rewrite Array_sort_Permutation; apply NoDup_Set_new|].
  split; [|split; [exact Hsorted|split; [|split]]].
  - intros v. rewrite Array_sort_Permutation. unfold uniqueValues.
    rewrite elem_of_Set_new, list_elem_of_fmap. split.
    + intros (row & -> & Hrow). by exists row.
    + intros (row & Hrow & <-). by exists row.
  - intros i j a b Hij Hi Hj.
    pose proof (StronglySorted_positions _ _ i j _ _ Hsorted Hij Hi Hj)
      as Hle.
    unfold text_le in Hle. cbn in Hle. unfold String.leb.
    by destruct (String.compare a b).
  - intros i j m n Hij Hi Hj.
    pose proof (StronglySorted_positions _ _ i j _ _ Hsorted Hij Hi Hj)
      as Hle.
    unfold text_le in Hle. cbn [SortCompare ToString] in Hle.
    unfold String.leb.
    by destruct (String.compare (Number_text m) (Number_text n)).
  - intros i j w Hij Hi Hj.
    pose proof (StronglySorted_positions _ _ i j _ _ Hsorted Hij Hi Hj)
      as Hle.
    unfold text_le in Hle. by destruct w.
Qed.

Lemma filter_values_are_distinct_and_sorted_as_text_witness :
  "country" ∈ categoricalColumns Samples.sales
  ∧ ("country" ∉ Object_prototype_members)
  ∧ ∃ vals,
      uniqueFilterValues Samples.sales !! "country" = Some vals
      ∧ vals = [Some (Str "FR"); Some (Str "US")]
      ∧ StronglySorted text_le vals.
Proof.
  assert (Hc : "country" ∈ categoricalColumns Samples.sales).
  { apply (bool_decide_eq_true_1 _). vm_compute. reflexivity. }
  assert (Hown : "country" ∉ Object_prototype_members).
  { apply (bool_decide_eq_false_1 _). vm_compute. reflexivity. }
  split; [exact Hc|]. split; [exact Hown|].
  destruct (filter_values_are_distinct_and_sorted_as_text
              Samples.sales "country" Hc Hown)
    as (vals & Hlook & _ & _ & Hs & _).
  exists vals. split; [exact Hlook|]. split; [|exact Hs].
  vm_compute in Hlook. by injection Hlook as <-.
Defined.

(** C7, as stated, fails on a column that opens with a string and goes on
    with numbers: it is filterable, and its values come out as 10, 9, "x",
    the two numbers in the order of their text and not of their size. *)
Lemma filter_values_numbers_not_in_numeric_order :
  "label" ∈ categoricalColumns Samples.mixed
  ∧ integer 10 = Some (Samples.number 10)
  ∧ integer 9 = Some (Samples.number 9)
  ∧ uniqueFilterValues Samples.mixed !! "label"
    = Some [Some (Num (Samples.number 10)); Some (Num (Samples.number 9));
            Some (Str "x")]
  ∧ ¬ StronglySorted typed_le
        [Some (Num (Samples.number 10)); Some (Num (Samples.number 9));
         Some (Str "x")].
Proof.
  split; [|split; [|split; [|split]]].
  - apply (bool_decide_eq_true_1 _). vm_compute. reflexivity.
  - reflexivity.
  - reflexivity.
  - vm_compute. reflexivity.
  - intros [Hhd _]%StronglySorted_cons.
    apply Forall_cons in Hhd as [Hle _]. cbn in Hle.
    specialize (Hle 10 9 eq_refl eq_refl). lia.
Qed.

End ColumnFacts.

(** * Further properties *)

(** ** Navigating and editing the history *)
Section HistoryNavigation.
Import JS Types DataCleaningStep.
Implicit Types (h : DataHistory) (s : CleaningState).

(** X1. Redo followed by undo gives back the history it started from,
    whenever there is something to redo (or nothing to undo either). *)
Theorem redo_then_undo_restores h :
  future h ≠ [] ∨ past h = [] → handleUndo (handleRedo h) = h.
Proof.
  destruct h as [ps s [|n f]]; cbn [past future]; intros Hcase.
  - destruct Hcase as [?| ->]; done.
  - by rewrite handleRedo_cons, handleUndo_snoc.
Qed.

Lemma redo_then_undo_restores_witness :
  let h := Samples.restored_then_undone in
  future h ≠ [] ∧ handleUndo (handleRedo h) = h.
Proof.
  intros h.
  assert (Hfut : future h ≠ []) by (cbn; discriminate).
  split; [exact Hfut|].
  apply redo_then_undo_restores. left. exact Hfut.
Defined.

Lemma timeline_handleUndo h : timeline (handleUndo h) = timeline h.
Proof.
  destruct h as [ps s f].
  destruct (snoc_cases ps) as [->|(ps' & p & ->)]; [done|].
  rewrite handleUndo_snoc. unfold timeline. cbn [past present future].
  by rewrite <- app_assoc.
Qed.

Lemma timeline_handleRedo h : timeline (handleRedo h) = timeline h.
Proof.
  destruct h as [ps s [|n f]]; [done|].
  rewrite handleRedo_cons. unfold timeline. cbn [past present future].
  by rewrite <- app_assoc.
Qed.

(** X2. Undo and redo only move the cursor: the sequence of snapshots,
    past then present then future, is the same before and after, however
    many of them are applied and in whatever order. *)
Theorem undo_and_redo_keep_the_timeline h (moves : list bool) :
  timeline (foldl (λ h (undo : bool),
                     if undo then handleUndo h else handleRedo h) h moves)
  = timeline h.
Proof.
  revert h. induction moves as [|m moves IH]; intros h; [done|].
  cbn [foldl]. rewrite IH.
  destruct m; [apply timeline_handleUndo | apply timeline_handleRedo].
Qed.

(** X3. Undo right after a restore brings back the present and the past
    as they were before the restore; the future then holds the restored
    state alone, whatever could be redone before the restore. *)
Theorem restore_then_undo h (rowToRestore : RemovedRow) (index : Z) :
  let restored := handleRestoreRow h rowToRestore index in
  handleUndo restored
  = {| past := past h; present := present h;
       future := [present restored] |}.
Proof.
  cbn zeta. unfold handleRestoreRow. by rewrite handleUndo_snoc.
Qed.

Lemma undo_all h :
  Nat.iter (length (past h)) handleUndo h
  = {| past := []; present := default (present h) (head (timeline h));
       future := drop 1 (timeline h) |}.
Proof.
  destruct h as [ps s f]. cbn [past].
  revert s f. induction ps as [|p ps IH] using rev_ind; intros s f.
  { done. }
  rewrite length_app, Nat.add_comm. cbn [length Nat.add].
  rewrite Nat.iter_succ_r, handleUndo_snoc, IH.
  unfold timeline. cbn [past present future].
  rewrite <- !app_assoc. cbn [app]. destruct ps; reflexivity.
Qed.

Lemma head_timeline_act h a :
  head (timeline (act h a)) = head (timeline h).
Proof.
  destruct a as [r i| |]; cbn [act].
  - unfold handleRestoreRow, timeline. cbn [past present future].
    destruct h as [[|p ps] s f]; reflexivity.
  - by rewrite timeline_handleUndo.
  - by rewrite timeline_handleRedo.
Qed.

Lemma head_timeline_session h actions :
  head (timeline (session h actions)) = head (timeline h).
Proof.
  induction actions as [|a rest IH] using rev_ind; [done|].
  unfold session. rewrite foldl_snoc. fold (session h rest).
  by rewrite head_timeline_act.
Qed.

(** X4. Whatever was restored, undone and redone since the cleaning run
    delivered its result, undoing as many times as the past is long
    brings the present back to that result. *)
Theorem undoing_everything_returns_to_the_cleaning_result
    (results : CleaningResults) (actions : list Action) :
  let h := session (initialize results) actions in
  let back := Nat.iter (length (past h)) handleUndo h in
  past back = [] ∧ present back = present (initialize results).
Proof.
  intros h back. subst back. rewrite undo_all. cbn [past present].
  split; [done|].
  subst h. by rewrite head_timeline_session.
Qed.

Lemma rows_of_restore_button h (i : nat) (item : RemovedRow) :
  removedRows (present h) !! i = Some item →
  rows_of (present (handleRestoreRow h item (Z.of_nat i)))
  ≡ₚ rows_of (present h).
Proof.
  intros Hitem. unfold handleRestoreRow, rows_of.
  cbn [present cleanedData removedRows].
  rewrite Array_filter_indexed_skip by (by eapply lookup_lt_Some).
  rewrite <- (take_drop_middle _ _ _ Hitem) at 3.
  rewrite !fmap_app, fmap_cons, <- !app_assoc.
  apply Permutation_app_head. cbn [app].
  by rewrite Permutation_middle.
Qed.

Lemma timeline_rows_click (P : CleaningState → Prop) h c :
  (∀ i item, removedRows (present h) !! i = Some item →
             P (present h) →
             P (present (handleRestoreRow h item (Z.of_nat i)))) →
  Forall P (timeline h) → Forall P (timeline (click h c)).
Proof.
  intros Hrestore Hall. destruct c as [i| |]; cbn [click].
  - destruct (removedRows (present h) !! i) as [item|] eqn:Hitem; [|done].
    unfold timeline in *.
    apply Forall_app in Hall as [Hpast Hrest].
    apply Forall_cons in Hrest as [Hpres _].
    change (past (handleRestoreRow h item (Z.of_nat i)))
      with (past h ++ [present h]).
    change (future (handleRestoreRow h item (Z.of_nat i)))
      with (@nil CleaningState).
    apply Forall_app. split.
    + apply Forall_app. split; [done|]. by constructor.
    + constructor; [|constructor]. by apply (Hrestore i).
  - by rewrite timeline_handleUndo.
  - by rewrite timeline_handleRedo.
Qed.

(** X5. Under the buttons of the review screen no row is lost or
    duplicated: in every snapshot the history holds, the cleaned rows
    together with the originals of the removed rows are a rearrangement
    of the rows the cleaning run delivered. *)
Theorem review_keeps_the_rows
    (results : CleaningResults) (clicks : list Click) :
  Forall (λ s, rows_of s ≡ₚ rows_of (present (initialize results)))
         (timeline (review (initialize results) clicks)).
Proof.
  induction clicks as [|c rest IH] using rev_ind.
  - cbn. constructor; [reflexivity | constructor].
  - unfold review. rewrite foldl_snoc. fold (review (initialize results) rest).
    apply timeline_rows_click; [|done].
    intros i item Hitem Hpres.
    by rewrite rows_of_restore_button.
Qed.

(** X6. The Restore button of entry [i] moves that very entry: its
    original row becomes the last cleaned row, the entries before it keep
    their index and the entries after it move up by one. *)
Theorem restore_button_moves_its_row h (i : nat) (item : RemovedRow) :
  removedRows (present h) !! i = Some item →
  let h' := click h (ClickRestore i) in
  last (cleanedData (present h')) = Some (originalRow item)
  ∧ length (removedRows (present h'))
    = (length (removedRows (present h)) - 1)%nat
  ∧ ∀ j : nat,
      removedRows (present h') !! j
      = removedRows (present h) !! (if decide (j < i)%nat then j else S j).
Proof.
  intros Hitem h'. subst h'. cbn [click]. rewrite Hitem.
  pose proof (lookup_lt_Some _ _ _ Hitem) as Hi.
  unfold handleRestoreRow. cbn [present cleanedData removedRows].
  rewrite Array_filter_indexed_skip by done.
  split; [apply last_snoc|]. split.
  - rewrite length_app, length_take, length_drop. lia.
  - intros j. case_decide as Hj.
    + rewrite lookup_app_l by (rewrite length_take; lia).
      by rewrite lookup_take_lt.
    + rewrite lookup_app_r by (rewrite length_take; lia).
      rewrite length_take, lookup_drop. f_equal. lia.
Qed.

Lemma restore_button_moves_its_row_witness :
  let h := initialize Samples.results in
  let h' := click h (ClickRestore 0) in
  removedRows (present h) !! 0%nat = Some Samples.removed2
  ∧ last (cleanedData (present h')) = Some (Samples.record 2 "")
  ∧ length (removedRows (present h')) = 0%nat.
Proof.
  intros h h'.
  assert (Hitem : removedRows (present h) !! 0%nat = Some Samples.removed2)
    by reflexivity.
  destruct (restore_button_moves_its_row h 0 Samples.removed2 Hitem)
    as (Hlast & Hlen & _).
  split; [exact Hitem|]. split; [exact Hlast | exact Hlen].
Defined.

End HistoryNavigation.

(** ** Strings and folds into objects *)
Section StringFacts.
Import JS.

Lemma String_split_cons sep s :
  ∃ piece pieces, String_split sep s = piece :: pieces.
Proof.
  induction s as [|c rest (piece & pieces & IH)]; cbn [String_split].
  - eauto.
  - case_decide; [eauto|]. rewrite IH. eauto.
Qed.

Lemma code_units_remove_all c s :
  c ∉ code_units (String_remove_all c s).
Proof.
  induction s as [|c' rest IH]; cbn [String_remove_all code_units].
  - apply not_elem_of_nil.
  - case_decide as Hc; [done|]. cbn [code_units].
    intros [->|Hin]%elem_of_cons; [done|]. by apply IH.
Qed.

Lemma String_remove_all_trim_empty c :
  String_remove_all c (String_trim EmptyString) = EmptyString.
Proof. done. Qed.

Section Reduce.
Context {V : Type}.
Implicit Types (f : gmap string V → string → nat → gmap string V)
               (acc : gmap string V) (arr : list string).

(** Which keys an object has after a fold that assigns [keep]-able
    elements as keys. *)
Lemma reduce_from_keys f (keep : string → Prop) :
  (∀ acc x i k,
     is_Some (f acc x i !! k) ↔ is_Some (acc !! k) ∨ (k = x ∧ keep x)) →
  ∀ arr from acc k,
    is_Some (reduce_from f from acc arr !! k)
    ↔ is_Some (acc !! k) ∨ (k ∈ arr ∧ keep k).
Proof.
  intros Hf. induction arr as [|x arr IH]; intros from acc k;
    cbn [reduce_from].
  - rewrite elem_of_nil. tauto.
  - rewrite IH, Hf, elem_of_cons. split.
    + intros [[?|[-> ?]]|[? ?]]; auto.
    + intros [?|[[->|?] ?]]; auto.
Qed.

(** A property of all values that each step keeps holds of the result. *)
Lemma reduce_from_values f (P : string → V → Prop) :
  (∀ acc x i, map_Forall P acc → map_Forall P (f acc x i)) →
  ∀ arr from acc, map_Forall P acc → map_Forall P (reduce_from f from acc arr).
Proof.
  intros Hf. induction arr as [|x arr IH]; intros from acc Hacc;
    cbn [reduce_from]; [done|].
  by apply IH, Hf.
Qed.

(** When each step leaves the other keys alone and assigns [g i] to the
    key it visits, if that is one to [keep], then a key to keep that is
    visited once holds the value of its position. *)
Lemma reduce_from_untouched f :
  (∀ acc x i k, k ≠ x → f acc x i !! k = acc !! k) →
  ∀ arr from acc k,
    k ∉ arr → reduce_from f from acc arr !! k = acc !! k.
Proof.
  intros Hf. induction arr as [|x arr IH]; intros from acc k Hk;
    cbn [reduce_from]; [done|].
  apply not_elem_of_cons in Hk as [Hne Hk].
  rewrite IH by done. by apply Hf.
Qed.

Lemma reduce_from_lookup f (g : nat → V) (keep : string → Prop) :
  (∀ acc x i k, k ≠ x → f acc x i !! k = acc !! k) →
  (∀ acc x i, keep x → f acc x i !! x = Some (g i)) →
  ∀ arr from acc (i : nat) k,
    NoDup arr → arr !! i = Some k → keep k →
    reduce_from f from acc arr !! k = Some (g (from + i)%nat).
Proof.
  intros Hother Hf. induction arr as [|x arr IH];
    intros from acc i k Hnd Hi Hkeep; [done|].
  apply NoDup_cons in Hnd as [Hx Hnd]. cbn [reduce_from].
  destruct i as [|i]; cbn in Hi.
  - injection Hi as ->.
    rewrite (reduce_from_untouched f Hother) by done.
    rewrite Hf by done. by rewrite Nat.add_0_r.
  - rewrite (IH (S from) _ i k Hnd Hi Hkeep). f_equal. f_equal. lia.
Qed.

End Reduce.
End StringFacts.

(** ** The preview table and the response schema *)
Section PreviewFacts.
Import JS Types DataCleaningStep.

Implicit Types (rawCsvData line header : string).

Lemma preview_unfold rawCsvData :
  rawCsvData ≠ EmptyString →
  sampleData rawCsvData
  = map (preview_row (headers rawCsvData))
        (take 5 (drop 1 (String_split "010"%char rawCsvData))).
Proof.
  intros Hraw. unfold headers, sampleData, preview.
  rewrite decide_False by done. cbn [fst snd].
  change 1 with (Z.of_nat 1). change 6 with (Z.of_nat (1 + 5)).
  by rewrite Array_slice_window.
Qed.

Lemma preview_empty : preview EmptyString = ([], []).
Proof. reflexivity. Qed.

Lemma lookup_Object_set {V} (o : gmap string V) x (v : V) k :
  Object_set o x v !! k
  = if decide (k = x ∧ x ≠ "__proto__") then Some v else o !! k.
Proof.
  unfold Object_set. destruct (decide (x = "__proto__")) as [->|Hx].
  - rewrite decide_False; [done|]. by intros [_ ?].
  - destruct (decide (k = x)) as [->|Hk].
    + rewrite decide_True by done. apply lookup_insert_eq.
    + rewrite decide_False by (by intros [? _]). by apply lookup_insert_ne.
Qed.

Lemma is_Some_Object_set {V} (o : gmap string V) x (v : V) k :
  is_Some (Object_set o x v !! k)
  ↔ is_Some (o !! k) ∨ (k = x ∧ x ≠ "__proto__").
Proof.
  rewrite lookup_Object_set. case_decide as Hk.
  - split; [auto | by eexists].
  - split; [auto|]. intros [?|?]; done.
Qed.

Lemma preview_cell_unquoted (values : list string) (i : nat) :
  "034"%char ∉ code_units (preview_cell values i).
Proof.
  unfold preview_cell. destruct (values !! i) as [v|].
  - case_decide; [apply not_elem_of_nil|apply code_units_remove_all].
  - apply not_elem_of_nil.
Qed.

(** X7. The preview never has more than five rows; every row has a cell
    for exactly the header names, but for a header named [__proto__],
    which no row gets as a property of its own; and no header name and
    no cell contains a double quote. *)
Theorem preview_has_five_rows_of_unquoted_cells rawCsvData :
  (length (sampleData rawCsvData) ≤ 5)%nat
  ∧ length (sampleData rawCsvData)
    = (if decide (rawCsvData = EmptyString) then 0
       else 5 `min` (length (String_split "010"%char rawCsvData) - 1))%nat
  ∧ (∀ row : DataRecord, row ∈ sampleData rawCsvData →
       ∀ k, is_Some (row !! k)
            ↔ k ∈ headers rawCsvData ∧ k ≠ "__proto__")
  ∧ (∀ (row : DataRecord) k v, row ∈ sampleData rawCsvData →
       row !! k = Some v →
       ∃ text, v = Str text ∧ "034"%char ∉ code_units text)
  ∧ (∀ header, header ∈ headers rawCsvData →
       "034"%char ∉ code_units header).
Proof.
  destruct (decide (rawCsvData = EmptyString)) as [->|Hraw].
  { change (sampleData EmptyString) with (@nil DataRecord).
    change (headers EmptyString) with (@nil string).
    cbn [length]. split; [lia|]. split; [done|].
    split; [|split].
    - by intros row ?%not_elem_of_nil.
    - by intros row k v ?%not_elem_of_nil.
    - by intros header ?%not_elem_of_nil. }
  rewrite preview_unfold by done.
  assert (Hlen : length (map (preview_row (headers rawCsvData))
                    (take 5 (drop 1 (String_split "010"%char rawCsvData))))
                 = (5 `min` (length (String_split "010"%char rawCsvData) - 1))%nat).
  { by rewrite length_map, length_take, length_drop. }
  split; [lia|]. split; [exact Hlen|]. split; [|split].
  - intros row (line & -> & _)%list_elem_of_fmap k.
    unfold preview_row, Array_reduce.
    rewrite (reduce_from_keys _ (λ x, x ≠ "__proto__")).
    + rewrite lookup_empty. split; [intros [[? ?]|?]; done | auto].
    + intros acc x i k'. apply is_Some_Object_set.
  - intros row k v (line & -> & _)%list_elem_of_fmap Hv.
    unfold preview_row, Array_reduce in Hv.
    revert k v Hv. apply map_Forall_lookup.
    apply reduce_from_values; [|apply map_Forall_empty].
    intros acc x i Hacc. unfold Object_set. case_decide; [done|].
    apply map_Forall_insert_2; [|done].
    eexists. split; [done|]. apply preview_cell_unquoted.
  - unfold headers, preview. rewrite decide_False by done. cbn [snd].
    intros header (h & -> & _)%list_elem_of_fmap.
    apply code_units_remove_all.
Qed.

Lemma preview_has_five_rows_of_unquoted_cells_witness :
  ∃ row : DataRecord,
    sampleData Samples.people_csv = [row; Samples.bob_row]
    ∧ is_Some (row !! "age")
    ∧ row !! "zip" = None
    ∧ Samples.bob_row !! "city" = Some (Str EmptyString)
    ∧ headers Samples.proto_csv = ["__proto__"; "b"]
    ∧ sampleData Samples.proto_csv = [{["b" := Str "2"]}].
Proof.
  destruct (preview_has_five_rows_of_unquoted_cells Samples.people_csv)
    as (_ & _ & Hkeys & _).
  eexists. split; [vm_compute; reflexivity|].
  split; [|split; [|split; [reflexivity|split;
                                          [reflexivity
                                          |vm_compute; reflexivity]]]].
  - apply Hkeys.
    + change (sampleData Samples.people_csv)
        with [preview_row (headers Samples.people_csv)
                (" Ann ," +:+ Samples.quoted "New York" +:+ ",30");
              preview_row (headers Samples.people_csv) "Bob,,"].
      left.
    + split; [|discriminate].
      apply (bool_decide_eq_true_1 _). vm_compute. reflexivity.
  - apply eq_None_not_Some. rewrite Hkeys.
    + intros [Hin _]. revert Hin.
      apply (bool_decide_eq_false_1 _). vm_compute. reflexivity.
    + change (sampleData Samples.people_csv)
        with [preview_row (headers Samples.people_csv)
                (" Ann ," +:+ Samples.quoted "New York" +:+ ",30");
              preview_row (headers Samples.people_csv) "Bob,,"].
      left.
Defined.

(** X8. When the header names are all different, the cell a preview row
    holds under a header other than [__proto__] is the field of its line
    at the header's position, trimmed and with the double quotes removed,
    and the empty string when the line has no field there.  Row [j] of
    the preview is made from line [j + 1] of the text. *)
Theorem preview_cell_is_the_field_under_its_header
    rawCsvData (j i : nat) line header :
  rawCsvData ≠ EmptyString →
  NoDup (headers rawCsvData) →
  (j < 5)%nat →
  String_split "010"%char rawCsvData !! S j = Some line →
  headers rawCsvData !! i = Some header →
  header ≠ "__proto__" →
  ∃ row : DataRecord,
    sampleData rawCsvData !! j = Some row
    ∧ row !! header
      = Some (Str (from_option unquote EmptyString
                     (String_split ","%char line !! i))).
Proof.
  intros Hraw Hnd Hj Hline Hheader Hown.
  exists (preview_row (headers rawCsvData) line). split.
  - rewrite preview_unfold by done.
    rewrite list_lookup_fmap, lookup_take_lt by done.
    rewrite lookup_drop. change (1 + j)%nat with (S j). by rewrite Hline.
  - unfold preview_row, Array_reduce.
    rewrite (reduce_from_lookup _
               (λ i, Str (preview_cell (String_split ","%char line) i))
               (λ x, x ≠ "__proto__")) with (i := i);
      [| |by intros; rewrite lookup_Object_set, decide_True|done..].
    + cbn [Nat.add]. f_equal. f_equal. unfold preview_cell.
      destruct (String_split ","%char line !! i) as [v|]; [|done]. cbn.
      case_decide as Hv; [by rewrite Hv|done].
    + intros acc x i' k Hk. rewrite lookup_Object_set.
      rewrite decide_False; [done|]. by intros [? _].
Qed.

Lemma preview_cell_is_the_field_under_its_header_witness :
  ∃ row : DataRecord,
    sampleData Samples.people_csv !! 0%nat = Some row
    ∧ row !! "city" = Some (Str "New York").
Proof.
  assert (Hraw : Samples.people_csv ≠ EmptyString) by discriminate.
  assert (Hnd : NoDup (headers Samples.people_csv)).
  { apply (bool_decide_eq_true_1 _). vm_compute. reflexivity. }
  assert (Hj : (0 < 5)%nat) by lia.
  assert (Hline : String_split "010"%char Samples.people_csv !! 1%nat
                  = Some (" Ann ," +:+ Samples.quoted "New York" +:+ ",30"))
    by reflexivity.
  assert (Hheader : headers Samples.people_csv !! 1%nat = Some "city")
    by reflexivity.
  assert (Hown : "city" ≠ "__proto__") by discriminate.
  destruct (preview_cell_is_the_field_under_its_header
              Samples.people_csv 0 1 _ "city" Hraw Hnd Hj Hline Hheader Hown)
    as (row & Hrow & Hcell).
  exists row. split; [exact Hrow | exact Hcell].
Defined.

(** X9. The response schema sent to the cleaning service declares a
    property for exactly the header names of the preview that are
    neither empty nor [__proto__], each of type string and described by
    its name. *)
Theorem schema_declares_the_nonempty_headers (csvData : string) :
  (∀ k, is_Some (GeminiService.dynamicObjectProperties csvData !! k)
        ↔ k ∈ headers csvData ∧ k ≠ EmptyString ∧ k ≠ "__proto__")
  ∧ (∀ k p, GeminiService.dynamicObjectProperties csvData !! k = Some p →
       GeminiService.type p = GeminiService.STRING
       ∧ GeminiService.description p
         = "Value for the " +:+ k +:+ " column.").
Proof.
  unfold GeminiService.dynamicObjectProperties, Array_reduce. split.
  - intros k.
    rewrite (reduce_from_keys _ (λ x, x ≠ EmptyString ∧ x ≠ "__proto__")).
    + rewrite lookup_empty.
      destruct (decide (csvData = EmptyString)) as [->|Hraw].
      * change (headers EmptyString) with (@nil string).
        change (GeminiService.headers EmptyString) with [EmptyString].
        rewrite list_elem_of_singleton, elem_of_nil.
        split; [intros [[? ?]|[-> [? _]]]; done | intros [[] _]].
      * replace (headers csvData) with (GeminiService.headers csvData).
        { split; [intros [[? ?]|?]; done | auto]. }
        unfold headers, preview. by rewrite decide_False.
    + intros acc x i k'. case_decide as Hx.
      * split; [auto|]. intros [?|[_ [? _]]]; done.
      * rewrite is_Some_Object_set. tauto.
  - apply map_Forall_lookup.
    apply (reduce_from_values _
             (λ k p, GeminiService.type p = GeminiService.STRING
                     ∧ GeminiService.description p
                       = "Value for the " +:+ k +:+ " column."));
      [|apply map_Forall_empty].
    intros acc x i Hacc. case_decide; [done|].
    unfold Object_set. case_decide; [done|].
    by apply map_Forall_insert_2.
Qed.

Lemma schema_declares_the_nonempty_headers_witness :
  is_Some (GeminiService.dynamicObjectProperties "id,,val" !! "val")
  ∧ GeminiService.dynamicObjectProperties "id,,val" !! EmptyString = None
  ∧ Object_keys (GeminiService.dynamicObjectProperties Samples.proto_csv)
    = ["b"].
Proof.
  destruct (schema_declares_the_nonempty_headers "id,,val") as [Hkeys _].
  split; [|split; [|vm_compute; reflexivity]].
  - apply Hkeys. split; [|split; discriminate].
    apply (bool_decide_eq_true_1 _). vm_compute. reflexivity.
  - apply eq_None_not_Some. rewrite Hkeys. intros (_ & Hne & _). done.
Defined.

End PreviewFacts.

(** ** The dropdowns and their effect on the view *)
Section DropdownFacts.
Import JS Types DashboardStep.
Implicit Types (d : Dashboard) (F G : Filters) (row : DataRecord)
               (selected : list Value) (value x : Value) (col c : string).

Lemma filter_keeps_all_of {A} (P : A → Prop) `{∀ a, Decision (P a)}
    (l : list A) :
  (∀ a, a ∈ l → P a) → filter P l = l.
Proof.
  induction l as [|a l IH]; intros HP; [done|].
  rewrite filter_cons_True by (apply HP; by left).
  rewrite IH; [done|]. intros b Hb. apply HP. by right.
Qed.

Lemma elem_of_handleSelect selected value x :
  x ∈ handleSelect selected value
  ↔ (x ∈ selected ∧ x ≠ value) ∨ (x = value ∧ value ∉ selected).
Proof.
  unfold handleSelect, Array_includes. case_bool_decide as Hin.
  - rewrite elem_of_Array_filter, negb_true_iff, bool_decide_eq_false.
    split; [intros [? ?]; auto | intros [[? ?]|[_ ?]]; done].
  - rewrite elem_of_app, list_elem_of_singleton. split.
    + intros [?| ->]; [left|right]; [|done]. split; [done|]. by intros ->.
    + intros [[? _]|[-> _]]; auto.
Qed.

Lemma handleSelect_twice_fresh selected value :
  value ∉ selected →
  handleSelect (handleSelect selected value) value = selected.
Proof.
  intros Hfresh. unfold handleSelect at 2, Array_includes.
  rewrite bool_decide_eq_false_2 by done.
  unfold handleSelect, Array_includes.
  rewrite bool_decide_eq_true_2 by (apply elem_of_app; right; by left).
  unfold Array_filter. rewrite filter_app, filter_cons_False, filter_nil.
  - rewrite app_nil_r. apply filter_keeps_all_of.
    intros y Hy. apply Is_true_true, negb_true_iff, bool_decide_eq_false.
    by intros ->.
  - intros Hv%Is_true_true%negb_true_iff%bool_decide_eq_false. done.
Qed.

Lemma ticking_toggles_like_a_set selected value x :
  (x ∈ handleSelect (handleSelect selected value) value ↔ x ∈ selected)
  ∧ (x ≠ value → x ∈ handleSelect selected value ↔ x ∈ selected).
Proof.
  rewrite !elem_of_handleSelect. split.
  - destruct (decide (x = value)) as [->|Hne];
      destruct (decide (value ∈ selected)); tauto.
  - intros Hne. tauto.
Qed.

(** X10. Ticking a checkbox toggles its value and nothing else: the
    value is selected afterwards exactly when it was not before, and
    every other value stays as it was; a selection without repetitions
    stays without; and ticking twice a value that was not selected
    gives back the selection as it was, in the same order. *)
Theorem ticking_toggles_the_value selected value :
  (value ∈ handleSelect selected value ↔ value ∉ selected)
  ∧ (∀ x, x ≠ value → x ∈ handleSelect selected value ↔ x ∈ selected)
  ∧ (NoDup selected → NoDup (handleSelect selected value))
  ∧ (value ∉ selected →
     handleSelect (handleSelect selected value) value = selected)
  ∧ (∀ x, x ∈ handleSelect (handleSelect selected value) value
          ↔ x ∈ selected).
Proof.
  split; [|split; [|split; [|split]]].
  - rewrite elem_of_handleSelect. split; [intros [[_ ?]|[_ ?]]; done|auto].
  - intros x Hx. rewrite elem_of_handleSelect.
    split; [intros [[? _]|[? _]]; done | auto].
  - intros Hnd. unfold handleSelect, Array_includes, Array_filter.
    case_bool_decide as Hin.
    + by apply NoDup_filter.
    + apply NoDup_app. split; [done|]. split; [|apply NoDup_singleton].
      by intros y Hy ->%list_elem_of_singleton.
  - apply handleSelect_twice_fresh.
  - intros x. apply ticking_toggles_like_a_set.
Qed.

Lemma ticking_toggles_the_value_witness :
  let selected := [Some (Str "US")] in
  let value := Some (Str "FR") in
  (value ∉ selected)
  ∧ handleSelect selected value = [Some (Str "US"); Some (Str "FR")]
  ∧ handleSelect (handleSelect selected value) value = selected.
Proof.
  intros selected value.
  assert (Hfresh : value ∉ selected).
  { apply (bool_decide_eq_false_1 _). vm_compute. reflexivity. }
  destruct (ticking_toggles_the_value selected value)
    as (_ & _ & _ & Htwice & _).
  split; [exact Hfresh|]. split; [reflexivity | exact (Htwice Hfresh)].
Defined.

Lemma selection_insert F col selected c :
  selection (<[col := selected]> F) c
  = if decide (c = col) then selected else selection F c.
Proof.
  unfold selection. case_decide as Hc.
  - subst. by rewrite lookup_insert_eq.
  - by rewrite lookup_insert_ne.
Qed.

(** Passing a selection mapping, read through [filters[c] || []]. *)
Lemma passes_selection F row :
  passes F row ↔ ∀ c, selection F c ≠ [] → row !! c ∈ selection F c.
Proof.
  unfold passes, selection. rewrite map_Forall_lookup. split.
  - intros Hpass c. destruct (F !! c) as [sel|] eqn:Hsel; [|done].
    cbn. by apply Hpass.
  - intros Hpass c sel Hsel Hne. specialize (Hpass c).
    rewrite Hsel in Hpass. by apply Hpass.
Qed.

Lemma not_nil_elem_of {A} (l : list A) : l ≠ [] ↔ ∃ a, a ∈ l.
Proof.
  destruct l as [|a l]; split; try done.
  - by intros [a ?%not_elem_of_nil].
  - intros _. exists a. by left.
Qed.

(** Only which values are selected matters, not their order. *)
Lemma passes_same_members F G row :
  (∀ c x, x ∈ selection F c ↔ x ∈ selection G c) →
  passes F row ↔ passes G row.
Proof.
  intros Hsame. rewrite !passes_selection.
  split; intros Hpass c [a Ha]%not_nil_elem_of.
  - apply Hsame, Hpass. apply not_nil_elem_of. exists a. by apply Hsame.
  - apply Hsame, Hpass. apply not_nil_elem_of. exists a. by apply Hsame.
Qed.

Lemma cleanedData_recompute d : cleanedData (recompute d) = cleanedData d.
Proof. unfold recompute. by case_match. Qed.

Lemma filters_recompute d : filters (recompute d) = filters d.
Proof. unfold recompute. by case_match. Qed.

Lemma selected_Some F col sel :
  selected F col = Some sel → sel = selection F col.
Proof.
  unfold selected, selection. destruct (F !! col) as [own|]; cbn.
  - by intros [= ->].
  - case_bool_decide; [done|]. by intros [= <-].
Qed.

Lemma selected_None F col :
  selected F col = None ↔ F !! col = None ∧ col ∈ Object_prototype_members.
Proof.
  unfold selected. destruct (F !! col) as [own|].
  - split; [done|]. by intros [? _].
  - case_bool_decide; split; try done. by intros [_ ?].
Qed.

(** What a tick that goes through leaves behind. *)
Lemma tick_Some d col value d1 :
  tick d col value = Some d1 →
  cleanedData d1 = cleanedData d
  ∧ filters d1
    = <[col := handleSelect (selection (filters d) col) value]> (filters d)
  ∧ filteredData d1 = filter (passes (filters d1)) (cleanedData d)
  ∧ page d1 = 0.
Proof.
  unfold tick. destruct (selected (filters d) col) as [sel|] eqn:Hsel;
    [|done].
  apply selected_Some in Hsel as ->. intros [= <-].
  rewrite filteredData_recompute, cleanedData_recompute, filters_recompute.
  repeat split. unfold recompute. by case_match.
Qed.

Lemma tick_None d col value :
  tick d col value = None
  ↔ filters d !! col = None ∧ col ∈ Object_prototype_members.
Proof.
  unfold tick. rewrite <- selected_None.
  destruct (selected (filters d) col); split; done.
Qed.

(** X11. A tick throws exactly when the column has no selection of its
    own yet and bears the name of an inherited member.  When it goes
    through, ticking the same checkbox again goes through as well, and
    leaves the table as the selection before the two ticks makes it,
    whether the value was selected at the start or not. *)
Theorem ticking_twice_restores_the_view d col value :
  (tick d col value = None
   ↔ filters d !! col = None ∧ col ∈ Object_prototype_members)
  ∧ ∀ d1, tick d col value = Some d1 →
      ∃ d2, tick d1 col value = Some d2
            ∧ filteredData d2 = filteredData (recompute d).
Proof.
  split; [apply tick_None|]. intros d1 Hd1.
  destruct (tick_Some _ _ _ _ Hd1) as (HD1 & HF1 & _ & _).
  destruct (tick d1 col value) as [d2|] eqn:Hd2.
  2:{ apply tick_None in Hd2 as [Hnone _].
      rewrite HF1, lookup_insert_eq in Hnone. done. }
  exists d2. split; [done|].
  destruct (tick_Some _ _ _ _ Hd2) as (HD2 & HF2 & Hview & _).
  rewrite Hview, HF2, HF1, HD1, filteredData_recompute.
  apply list_filter_iff. intros row. apply passes_same_members.
  intros c x. rewrite !selection_insert.
  case_decide as Hc; [|done]. subst c.
  rewrite decide_True by done.
  destruct (ticking_toggles_like_a_set (selection (filters d) col) value x)
    as [Hx _]. exact Hx.
Qed.

Lemma ticking_twice_restores_the_view_witness :
  let d := Samples.sales_dashboard in
  let value := Some (Str "FR") in
  let d1 :=
    recompute
      (setFilters d "country"
         (handleSelect (selection (filters d) "country") value)) in
  tick d "country" value = Some d1
  ∧ length (filteredData d1) = 4%nat
  ∧ (∃ d2, tick d1 "country" value = Some d2
           ∧ filteredData d2 = filteredData (recompute d))
  ∧ tick (mount Samples.sales) "constructor" value = None.
Proof.
  intros d value d1.
  assert (Hd1 : tick d "country" value = Some d1) by reflexivity.
  destruct (ticking_twice_restores_the_view d "country" value)
    as [_ Htwice].
  destruct (ticking_twice_restores_the_view
              (mount Samples.sales) "constructor" value) as [Hthrow _].
  split; [exact Hd1|].
  split; [vm_compute; reflexivity|].
  split; [exact (Htwice d1 Hd1)|].
  apply Hthrow. split; [reflexivity|].
  apply (bool_decide_eq_true_1 _). vm_compute. reflexivity.
Defined.

Lemma elem_of_categoricalColumns D c :
  c ∈ categoricalColumns D →
  typeof_string (first_value D c) = true
  ∧ (1 < Set_size (uniqueValues D c) ≤ 50)%nat.
Proof.
  destruct D as [|first rest]; [by intros ?%not_elem_of_nil|].
  unfold categoricalColumns, first_value.
  cbn [lookup list_lookup mbind option_bind].
  rewrite elem_of_Array_filter.
  destruct (typeof_string (first !! c)); cbn [negb]; [|by intros [? _]].
  rewrite andb_true_iff, Nat.ltb_lt, Nat.leb_le. tauto.
Qed.

Lemma elem_of_uniqueValues D c x :
  x ∈ uniqueValues D c ↔ ∃ row : DataRecord, row ∈ D ∧ row !! c = x.
Proof.
  unfold uniqueValues. rewrite elem_of_Set_new, list_elem_of_fmap. split.
  - intros (row & -> & Hrow). by exists row.
  - intros (row & Hrow & <-). by exists row.
Qed.

(** X12. A dropdown exists only for a categorical column, and it lists
    at least two and at most fifty values, among them the string the
    first record has in that column. *)
Theorem dropdown_lists_between_two_and_fifty_values D c (vals : list Value) :
  uniqueFilterValues D !! c = Some vals →
  c ∈ categoricalColumns D
  ∧ (2 ≤ length vals ≤ 50)%nat
  ∧ first_value D c ∈ vals
  ∧ typeof_string (first_value D c) = true.
Proof.
  rewrite lookup_uniqueFilterValues. case_decide as Hc; [|done].
  intros [= <-]. destruct (elem_of_categoricalColumns D c Hc) as [Hty Hsize].
  split; [done|]. split; [|split; [|done]].
  - rewrite Array_sort_Permutation. unfold Set_size in Hsize. lia.
  - rewrite Array_sort_Permutation. apply elem_of_uniqueValues.
    destruct D as [|first rest]; [done|].
    exists first. split; [by left|done].
Qed.

Lemma dropdown_lists_between_two_and_fifty_values_witness :
  uniqueFilterValues Samples.sales !! "year"
  = Some [Some (Str "2022"); Some (Str "2023")]
  ∧ "year" ∈ categoricalColumns Samples.sales
  ∧ first_value Samples.sales "year" = Some (Str "2023").
Proof.
  assert (Hvals : uniqueFilterValues Samples.sales !! "year"
                  = Some [Some (Str "2022"); Some (Str "2023")]).
  { vm_compute. reflexivity. }
  destruct (dropdown_lists_between_two_and_fifty_values
              Samples.sales "year" _ Hvals) as (Hc & _ & _ & _).
  split; [exact Hvals|]. split; [exact Hc | reflexivity].
Defined.

Lemma passes_single c value row :
  passes {[c := [value]]} row ↔ row !! c = value.
Proof.
  unfold passes. rewrite map_Forall_singleton. split.
  - intros Hin. by apply list_elem_of_singleton, Hin.
  - intros -> _. by left.
Qed.

(** X13. On a dashboard just opened, ticking one value offered for a
    column shows exactly the rows that have this value in the column, in
    their order, on the first page, and there is at least one such row;
    unless the column bears the name of an inherited member, where the
    dropdown throws. *)
Theorem first_tick_shows_the_rows_with_the_value
    D c (vals : list Value) value :
  uniqueFilterValues D !! c = Some vals →
  value ∈ vals →
  (c ∈ Object_prototype_members →
   dispatch (mount D) (Tick c value) = None)
  ∧ (c ∉ Object_prototype_members →
     ∃ d, dispatch (mount D) (Tick c value) = Some d
          ∧ filteredData d = filter (λ row : DataRecord, row !! c = value) D
          ∧ filteredData d ≠ []
          ∧ page d = 0).
Proof.
  intros Hvals Hvalue.
  assert (Heq : dispatch (mount D) (Tick c value) = tick (mount D) c value).
  { cbn [dispatch]. unfold mount at 1.
    rewrite cleanedData_recompute. cbn [cleanedData].
    by rewrite Hvals, bool_decide_eq_true_2. }
  assert (Hfresh : filters (mount D) = ∅).
  { unfold mount. by rewrite filters_recompute. }
  assert (HD : cleanedData (mount D) = D).
  { unfold mount. by rewrite cleanedData_recompute. }
  rewrite Heq. split.
  - intros Hmember. apply tick_None. by rewrite Hfresh, lookup_empty.
  - intros Hown.
    destruct (tick (mount D) c value) as [d|] eqn:Hd.
    2:{ apply tick_None in Hd as [_ ?]. done. }
    exists d. split; [done|].
    destruct (tick_Some _ _ _ _ Hd) as (_ & HF & Hview & Hpage).
    assert (Hrows : filteredData d
                    = filter (λ row : DataRecord, row !! c = value) D).
    { rewrite Hview, HF, HD, Hfresh.
      apply list_filter_iff. intros row.
      rewrite insert_empty. unfold selection. rewrite lookup_empty.
      apply passes_single. }
    split; [exact Hrows|]. split; [|exact Hpage].
    rewrite Hrows.
    rewrite lookup_uniqueFilterValues in Hvals.
    case_decide; [|done]. injection Hvals as <-.
    rewrite Array_sort_Permutation in Hvalue.
    apply elem_of_uniqueValues in Hvalue as (row & Hrow & Hcell).
    apply not_nil_elem_of. exists row. by apply list_elem_of_filter.
Qed.

Lemma first_tick_shows_the_rows_with_the_value_witness :
  ∃ d, dispatch (mount Samples.sales) (Tick "country" (Some (Str "FR")))
       = Some d
       ∧ filteredData d = [Samples.sale "FR" "2023" 7].
Proof.
  assert (Hvals : uniqueFilterValues Samples.sales !! "country"
                  = Some [Some (Str "FR"); Some (Str "US")]).
  { vm_compute. reflexivity. }
  assert (Hvalue : Some (Str "FR") ∈ [Some (Str "FR"); Some (Str "US")])
    by left.
  assert (Hown : "country" ∉ Object_prototype_members).
  { apply (bool_decide_eq_false_1 _). vm_compute. reflexivity. }
  destruct (first_tick_shows_the_rows_with_the_value
              Samples.sales "country" _ _ Hvals Hvalue) as [_ Hshown].
  destruct (Hshown Hown) as (d & Hd & Hview & _).
  exists d. split; [exact Hd|]. rewrite Hview. vm_compute. reflexivity.
Defined.

Lemma filter_sublist_of_filter {A} (P Q : A → Prop)
    `{∀ a, Decision (P a)} `{∀ a, Decision (Q a)} (l : list A) :
  (∀ a, P a → Q a) → filter P l `sublist_of` filter Q l.
Proof.
  intros HPQ. rewrite <- (list_filter_filter_l P Q l HPQ).
  apply sublist_filter.
Qed.

(** X14. Within a column the selected values are alternatives: a tick
    that goes through and adds one more value to a column that has a
    selection only adds rows to the table, and one that removes one of
    several only removes rows.  The first value ticked in a column only
    removes rows, and unticking the last one only adds rows. *)
Theorem ticking_within_a_column_widens_or_narrows d col value ticked :
  tick d col value = Some ticked →
  let selected := selection (filters d) col in
  let before := filteredData (recompute d) in
  let after := filteredData ticked in
  (selected ≠ [] → value ∉ selected → before `sublist_of` after)
  ∧ (value ∈ selected → (∃ x, x ∈ selected ∧ x ≠ value) →
     after `sublist_of` before)
  ∧ (selected = [] → after `sublist_of` before)
  ∧ (value ∈ selected → (∀ x, x ∈ selected → x = value) →
     before `sublist_of` after).
Proof.
  intros (_ & HF & Hview & _)%tick_Some selected before after.
  subst before after selected.
  rewrite Hview, HF, filteredData_recompute.
  set (selected := selection (filters d) col) in *.
  assert (Hother : ∀ c, c ≠ col →
            selection (<[col := handleSelect selected value]> (filters d)) c
            = selection (filters d) c).
  { intros c Hc. rewrite selection_insert. by rewrite decide_False. }
  assert (Hcol :
            selection (<[col := handleSelect selected value]> (filters d)) col
            = handleSelect selected value).
  { rewrite selection_insert. by rewrite decide_True. }
  split; [|split; [|split]].
  - intros Hne Hfresh. apply filter_sublist_of_filter. intros row.
    rewrite !passes_selection. intros Hpass c.
    destruct (decide (c = col)) as [->|Hc].
    + rewrite Hcol. intros _. apply elem_of_handleSelect.
      specialize (Hpass col Hne).
      left. split; [done|]. intros Heq. by rewrite Heq in Hpass.
    + rewrite (Hother c Hc). apply Hpass.
  - intros Hin (x & Hx & Hxv). apply filter_sublist_of_filter. intros row.
    rewrite !passes_selection. intros Hpass c Hsel.
    destruct (decide (c = col)) as [->|Hc].
    + specialize (Hpass col). rewrite Hcol in Hpass.
      assert (Hkept : row !! col ∈ handleSelect selected value).
      { apply Hpass, not_nil_elem_of. exists x.
        apply elem_of_handleSelect. auto. }
      apply elem_of_handleSelect in Hkept as [[? _]|[_ ?]]; done.
    + specialize (Hpass c). rewrite (Hother c Hc) in Hpass. by apply Hpass.
  - intros Hnil. apply filter_sublist_of_filter. intros row.
    rewrite !passes_selection. intros Hpass c Hsel.
    destruct (decide (c = col)) as [->|Hc].
    + done.
    + specialize (Hpass c). rewrite (Hother c Hc) in Hpass. by apply Hpass.
  - intros Hin Honly. apply filter_sublist_of_filter. intros row.
    rewrite !passes_selection. intros Hpass c.
    destruct (decide (c = col)) as [->|Hc].
    + rewrite Hcol. intros [x Hx]%not_nil_elem_of. exfalso.
      apply elem_of_handleSelect in Hx as [[Hx Hne]|[_ ?]]; [|done].
      by apply Hne, Honly.
    + rewrite (Hother c Hc). apply Hpass.
Qed.

Lemma ticking_within_a_column_widens_or_narrows_witness :
  let d := Samples.sales_dashboard in
  let value := Some (Str "FR") in
  let ticked :=
    recompute
      (setFilters d "country"
         (handleSelect (selection (filters d) "country") value)) in
  tick d "country" value = Some ticked
  ∧ selection (filters d) "country" ≠ []
  ∧ (value ∉ selection (filters d) "country")
  ∧ filteredData (recompute d) `sublist_of` filteredData ticked
  ∧ length (filteredData (recompute d)) = 3%nat
  ∧ length (filteredData ticked) = 4%nat.
Proof.
  intros d value ticked.
  assert (Htick : tick d "country" value = Some ticked) by reflexivity.
  assert (Hne : selection (filters d) "country" ≠ []) by discriminate.
  assert (Hfresh : value ∉ selection (filters d) "country").
  { apply (bool_decide_eq_false_1 _). vm_compute. reflexivity. }
  destruct (ticking_within_a_column_widens_or_narrows
              d "country" value ticked Htick) as (Hwiden & _).
  split; [exact Htick|]. split; [exact Hne|]. split; [exact Hfresh|].
  split; [exact (Hwiden Hne Hfresh)|].
  split; vm_compute; reflexivity.
Defined.

(** X15. Across columns the selections are conditions that must all
    hold: the table for two selection mappings over different columns,
    taken together, is the table of the one computed on the table of the
    other. *)
Theorem selections_on_different_columns_combine
    (D : list DataRecord) F G (shown : list DataRecord) (p : Z) :
  F ##ₘ G →
  let both :=
    recompute {| cleanedData := D; filters := F ∪ G;
                 filteredData := shown; page := p |} in
  let first :=
    recompute {| cleanedData := D; filters := G;
                 filteredData := shown; page := p |} in
  let second :=
    recompute {| cleanedData := filteredData first; filters := F;
                 filteredData := shown; page := p |} in
  filteredData both = filteredData second.
Proof.
  intros Hdisj both first second. subst both first second.
  rewrite !filteredData_recompute. cbn [cleanedData filters].
  rewrite list_filter_filter. apply list_filter_iff. intros row.
  unfold passes. by rewrite map_Forall_union.
Qed.

Lemma selections_on_different_columns_combine_witness :
  let F : Filters := {["country" := [Some (Str "US")]]} in
  let G : Filters := {["year" := [Some (Str "2023")]]} in
  F ##ₘ G
  ∧ filteredData
      (recompute {| cleanedData := Samples.sales; filters := F ∪ G;
                    filteredData := []; page := 0 |})
    = [Samples.sale "US" "2023" 5; Samples.sale "US" "2023" 5;
       Samples.sale "US" "2023" 9].
Proof.
  intros F G.
  assert (Hdisj : F ##ₘ G).
  { apply map_disjoint_singleton_l. by apply lookup_singleton_ne. }
  split; [exact Hdisj|].
  rewrite (selections_on_different_columns_combine
             Samples.sales F G [] 0 Hdisj).
  vm_compute. reflexivity.
Defined.

End DropdownFacts.

(** ** Pages of the table *)
Section PageFacts.
Import JS Types DashboardStep.
Implicit Types (d : Dashboard).

Lemma paginatedData_setPage d (p : nat) :
  paginatedData (setPage d (Z.of_nat p))
  = take 10 (drop (p * 10) (filteredData d)).
Proof. by apply (paginatedData_window (setPage d (Z.of_nat p)) p). Qed.

Lemma concat_windows {A} (l : list A) (k : nat) :
  (length l ≤ k * 10)%nat →
  concat (map (λ p : nat, take 10 (drop (p * 10) l)) (seq 0 k)) = l.
Proof.
  revert l. induction k as [|k IH]; intros l Hlen.
  - cbn. symmetry. apply nil_length_inv. lia.
  - rewrite <- cons_seq, <- fmap_S_seq. cbn [map concat].
    rewrite drop_0.
    change (map ?f (S <$> ?l)) with (map f (map S l)).
    rewrite map_map.
    rewrite (map_ext _ (λ p : nat, take 10 (drop (p * 10) (drop 10 l)))).
    + rewrite IH; [apply take_drop|]. rewrite length_drop. lia.
    + intros p. by rewrite drop_drop.
Qed.

(** X16. The pages cut the filtered rows into consecutive pieces: put
    one after the other, pages 0 to [pageCount - 1] give back the
    filtered rows; every page before the last has ten rows, the last has
    between one and ten, and a page past the last is empty. *)
Theorem pages_partition_the_filtered_rows d :
  concat (map (λ p : nat, paginatedData (setPage d (Z.of_nat p)))
              (seq 0 (Z.to_nat (pageCount d))))
  = filteredData d
  ∧ (∀ p : nat, Z.of_nat p < pageCount d - 1 →
       length (paginatedData (setPage d (Z.of_nat p))) = 10%nat)
  ∧ (∀ p : nat, Z.of_nat p = pageCount d - 1 →
       (1 ≤ length (paginatedData (setPage d (Z.of_nat p))) ≤ 10)%nat)
  ∧ (∀ p : nat, pageCount d ≤ Z.of_nat p →
       paginatedData (setPage d (Z.of_nat p)) = []).
Proof.
  assert (Hceil := Math_ceil_div_bounds
                     (Z.of_nat (length (filteredData d))) 10 ltac:(lia)).
  fold rowsPerPage in Hceil. fold (pageCount d) in Hceil.
  unfold rowsPerPage in Hceil.
  split; [|split; [|split]].
  - rewrite (map_ext _ (λ p : nat, take 10 (drop (p * 10) (filteredData d))))
      by apply paginatedData_setPage.
    apply concat_windows. lia.
  - intros p Hp. rewrite paginatedData_setPage, length_take, length_drop. lia.
  - intros p Hp. rewrite paginatedData_setPage, length_take, length_drop. lia.
  - intros p Hp. rewrite paginatedData_setPage.
    rewrite drop_ge by lia. apply take_nil.
Qed.

Lemma pages_partition_the_filtered_rows_witness :
  let d := Samples.third_page_of_25 in
  pageCount d = 3
  ∧ concat (map (λ p : nat, paginatedData (setPage d (Z.of_nat p)))
                [0; 1; 2]%nat)
    = filteredData d
  ∧ length (paginatedData (setPage d 1)) = 10%nat
  ∧ paginatedData (setPage d 3) = [].
Proof.
  intros d.
  destruct (pages_partition_the_filtered_rows d)
    as (Hall & Hfull & _ & Hpast).
  assert (Hpc : pageCount d = 3) by reflexivity.
  split; [exact Hpc|]. split; [|split].
  - rewrite Hpc in Hall. exact Hall.
  - apply (Hfull 1%nat). rewrite Hpc. lia.
  - apply (Hpast 3%nat). rewrite Hpc. lia.
Defined.

(** What every reachable state of the dashboard satisfies. *)
Lemma dispatch_keeps_view_and_page D d e d' :
  (cleanedData d = D
   ∧ filteredData d = filter (passes (filters d)) D
   ∧ 0 ≤ page d ∧ (page d = 0 ∨ page d < pageCount d)) →
  dispatch d e = Some d' →
  cleanedData d' = D
  ∧ filteredData d' = filter (passes (filters d')) D
  ∧ 0 ≤ page d'
  ∧ (page d' = 0 ∨ page d' < pageCount d').
Proof.
  intros (HD & Hview & Hpos & Hrange).
  destruct e as [| |col value]; cbn [dispatch].
  - intros [= <-]. case_match; [|done].
    unfold pageCount. cbn [previous cleanedData filters filteredData page].
    fold (pageCount d). repeat split; [done|done|lia|lia].
  - intros [= <-]. case_match eqn:Hgate; [|done].
    apply andb_true_iff in Hgate as [Hmany Hlast].
    apply Z.ltb_lt in Hmany. apply negb_true_iff, Z.leb_gt in Hlast.
    unfold pageCount. cbn [next cleanedData filters filteredData page].
    fold (pageCount d). repeat split; [done|done|lia|lia].
  - destruct (uniqueFilterValues (cleanedData d) !! col);
      [|by intros [= <-]].
    case_bool_decide; [|by intros [= <-]].
    intros (HD' & _ & Hview' & Hpage)%tick_Some.
    rewrite HD'. rewrite Hview', HD. rewrite Hpage. split; [done|].
    split; [done|]. split; [lia|]. by left.
Qed.

Lemma dispatch_goes_through D d e :
  (∀ c, c ∈ categoricalColumns D → c ∉ Object_prototype_members) →
  cleanedData d = D → is_Some (dispatch d e).
Proof.
  intros Hnames HD. destruct e as [| |col value]; cbn [dispatch];
    [by eexists..|].
  rewrite HD, lookup_uniqueFilterValues.
  case_decide as Hcol; [|by eexists].
  case_bool_decide; [|by eexists].
  destruct (tick d col value) eqn:Htick; [by eexists|].
  apply tick_None in Htick as [_ Hmember]. by apply Hnames in Hcol.
Qed.

Lemma interact_snoc d events e :
  interact d (events ++ [e]) = interact d events ≫= (λ d', dispatch d' e).
Proof. unfold interact. by rewrite foldl_snoc. Qed.

Lemma interact_keeps_view_and_page D events d :
  interact (mount D) events = Some d →
  cleanedData d = D
  ∧ filteredData d = filter (passes (filters d)) D
  ∧ 0 ≤ page d ∧ (page d = 0 ∨ page d < pageCount d).
Proof.
  revert d. induction events as [|e rest IH] using rev_ind; intros d.
  - intros [= <-]. unfold mount.
    rewrite cleanedData_recompute, filteredData_recompute,
      filters_recompute. cbn [cleanedData filters].
    repeat split; [unfold recompute; by case_match..|].
    left. unfold recompute. by case_match.
  - rewrite interact_snoc.
    destruct (interact (mount D) rest) as [d0|]; [|done]. cbn.
    by apply dispatch_keeps_view_and_page, IH.
Qed.

(** X17. However the user pages and ticks after the dashboard opens, as
    long as no dropdown throws: the table shows the cleaned rows that
    pass the selections as they now stand, the dataset itself is
    untouched, the page index stays within the pages, and the page
    displayed is empty only when no row passes.  No dropdown throws when
    no categorical column bears the name of an inherited member. *)
Theorem dashboard_stays_in_step_with_its_controls
    (D : list DataRecord) (events : list Event) :
  (∀ d, interact (mount D) events = Some d →
     cleanedData d = D
     ∧ filteredData d = filter (passes (filters d)) D
     ∧ 0 ≤ page d
     ∧ (page d = 0 ∨ page d < pageCount d)
     ∧ (filteredData d ≠ [] → paginatedData d ≠ []))
  ∧ ((∀ c, c ∈ categoricalColumns D → c ∉ Object_prototype_members) →
     is_Some (interact (mount D) events)).
Proof.
  split.
  - intros d (HD & Hview & Hpos & Hrange)%interact_keeps_view_and_page.
    repeat split; [done..|].
    intros Hrows.
    assert (Hceil := Math_ceil_div_bounds
                       (Z.of_nat (length (filteredData d))) 10 ltac:(lia)).
    fold rowsPerPage in Hceil. fold (pageCount d) in Hceil.
    unfold rowsPerPage in Hceil.
    assert (Hlen : (0 < length (filteredData d))%nat).
    { destruct (filteredData d); [done|cbn; lia]. }
    rewrite (paginatedData_window d (Z.to_nat (page d))) by lia.
    intros Hnil%(f_equal length).
    rewrite length_take, length_drop in Hnil. cbn [length] in Hnil. lia.
  - intros Hnames.
    induction events as [|e rest IH] using rev_ind; [by eexists|].
    rewrite interact_snoc. destruct IH as [d0 Hd0]. rewrite Hd0. cbn.
    apply (dispatch_goes_through D); [done|].
    by apply interact_keeps_view_and_page in Hd0 as [? _].
Qed.

Lemma dashboard_stays_in_step_with_its_controls_witness :
  ∃ d, interact (mount Samples.rows25)
         [ClickNext; ClickNext; ClickNext; ClickPrevious] = Some d
       ∧ page d = 1 ∧ length (paginatedData d) = 10%nat
       ∧ paginatedData d ≠ [].
Proof.
  destruct (dashboard_stays_in_step_with_its_controls Samples.rows25
              [ClickNext; ClickNext; ClickNext; ClickPrevious])
    as [Hinv _].
  eexists. split; [reflexivity|].
  split; [reflexivity|]. split; [reflexivity|].
  eapply Hinv; [reflexivity|]. discriminate.
Defined.

End PageFacts.

(** ** Uploading a file *)
Section UploadFacts.
Import JS FileUploadStep.

Lemma append_empty (s : string) : EmptyString +:+ s = s.
Proof. reflexivity. Qed.

Lemma append_String (c : Ascii.ascii) (s t : string) :
  String c s +:+ t = String c (s +:+ t).
Proof. reflexivity. Qed.

Lemma last_String_split_plain (sep : Ascii.ascii) (s : string) :
  sep ∉ code_units s → String_split sep s = [s].
Proof.
  induction s as [|c rest IH]; cbn [String_split code_units]; [done|].
  intros [Hc Hrest]%not_elem_of_cons.
  rewrite decide_False by done. by rewrite IH.
Qed.

Lemma String_split_at_separator (sep : Ascii.ascii) (before after : string) :
  String_split sep (before +:+ String sep after)
  = String_split sep before ++ String_split sep after.
Proof.
  induction before as [|c rest IH].
  - rewrite append_empty. cbn [String_split].
    by rewrite decide_True.
  - rewrite append_String. cbn [String_split]. rewrite IH.
    case_decide; [done|].
    by destruct (String_split_cons sep rest) as (piece & pieces & ->).
Qed.

Lemma last_String_split_after (sep : Ascii.ascii) (before after : string) :
  last (String_split sep (before +:+ String sep after))
  = last (String_split sep after).
Proof.
  rewrite String_split_at_separator.
  destruct (String_split_cons sep after) as (piece & pieces & ->).
  apply last_app_cons.
Qed.

(** X18. The extension [handleFile] goes by is the text after the last
    dot of the file name, in lower case; a name without a dot is taken
    whole. *)
Theorem extension_is_the_lowercased_text_after_the_last_dot (file : File) :
  ("."%char ∉ code_units (name file) →
   fileExtension file = Some (String_toLowerCase (name file)))
  ∧ (∀ before after,
       name file = before +:+ String "."%char after →
       "."%char ∉ code_units after →
       fileExtension file = Some (String_toLowerCase after)).
Proof.
  unfold fileExtension. split.
  - intros Hplain. by rewrite last_String_split_plain.
  - intros before after -> Hplain.
    by rewrite last_String_split_after, last_String_split_plain.
Qed.

Lemma extension_is_the_lowercased_text_after_the_last_dot_witness :
  fileExtension {| name := "sales.2023.CSV"; reading := ReadError |}
  = Some "csv"
  ∧ fileExtension {| name := "TXT"; reading := ReadError |} = Some "txt".
Proof.
  split.
  - apply (proj2 (extension_is_the_lowercased_text_after_the_last_dot
                    {| name := "sales.2023.CSV"; reading := ReadError |})
             "sales.2023" "CSV"); [reflexivity|].
    apply (bool_decide_eq_false_1 _). vm_compute. reflexivity.
  - apply (proj1 (extension_is_the_lowercased_text_after_the_last_dot
                    {| name := "TXT"; reading := ReadError |})).
    apply (bool_decide_eq_false_1 _). vm_compute. reflexivity.
Defined.

(** X19. A file with extension csv or txt whose text could be read is
    handed on as it is, under its own name, whatever the spreadsheet and
    JSON libraries do. *)
Theorem text_files_are_uploaded_verbatim
    (Json : Type) (xlsx_to_csv : string → Thrown + string)
    (JSON_parse : string → Thrown + Json) (Array_isArray : Json → bool)
    (Papa_unparse : Json → Thrown + string)
    (file : File) (content : string) :
  fileExtension file = Some "csv" ∨ fileExtension file = Some "txt" →
  reading file = ReadLoad (Some content) →
  handleFile Json xlsx_to_csv JSON_parse Array_isArray Papa_unparse
             (Some file)
  = Uploaded content (name file).
Proof.
  intros Hext Hread. unfold handleFile.
  rewrite Hread. unfold onload.
  rewrite (bool_decide_eq_true_2 (_ ∨ _ ∨ _)) by tauto.
  rewrite orb_true_r.
  by rewrite (bool_decide_eq_true_2 _ Hext).
Qed.

Lemma text_files_are_uploaded_verbatim_witness :
  let file := {| name := "Report.TXT";
                 reading := ReadLoad (Some "a,b") |} in
  fileExtension file = Some "txt"
  ∧ handleFile string Samples.no_library Samples.no_library
               (λ _, false) Samples.no_library (Some file)
    = Uploaded "a,b" "Report.TXT".
Proof.
  intros file.
  assert (Hext : fileExtension file = Some "txt") by reflexivity.
  split; [exact Hext|].
  apply (text_files_are_uploaded_verbatim
           string Samples.no_library Samples.no_library
           (λ _, false) Samples.no_library file "a,b").
  - right. exact Hext.
  - reflexivity.
Defined.

(** X20. Nothing is uploaded unless the extension is one of csv, txt,
    xlsx, xls and json and the reader delivered a content, and what is
    uploaded carries the name of the file; a file of another extension is
    turned away before it is read, so the alert about an unsupported
    type that the load handler holds is never shown. *)
Theorem only_supported_files_are_uploaded
    (Json : Type) (xlsx_to_csv : string → Thrown + string)
    (JSON_parse : string → Thrown + Json) (Array_isArray : Json → bool)
    (Papa_unparse : Json → Thrown + string)
    (file : option File) :
  let outcome :=
    handleFile Json xlsx_to_csv JSON_parse Array_isArray Papa_unparse file in
  (∀ csvString fileName,
     outcome = Uploaded csvString fileName →
     ∃ f content,
       file = Some f ∧ fileName = name f
       ∧ reading f = ReadLoad (Some content)
       ∧ fileExtension f
           ∈ [Some "csv"; Some "txt"; Some "xlsx"; Some "xls"; Some "json"])
  ∧ outcome
    ≠ Alerted
        "Unsupported file type. Please upload a CSV, Excel, or JSON file.".
Proof.
  intros outcome. subst outcome.
  destruct file as [f|]; [|split; [intros ? ? [=] | discriminate]].
  unfold handleFile, onload, parse_failure.
  set (ext := fileExtension f).
  assert (Hin : ext = Some "csv" ∨ ext = Some "txt" ∨ ext = Some "xlsx"
                ∨ ext = Some "xls" ∨ ext = Some "json" →
                ext ∈ [Some "csv"; Some "txt"; Some "xlsx"; Some "xls";
                       Some "json"]).
  { intros [->|[->|[->|[->| ->]]]]; set_solver. }
  destruct (bool_decide (ext = Some "xlsx" ∨ ext = Some "xls")) eqn:Hsheet;
    destruct (bool_decide (ext = Some "csv" ∨ ext = Some "txt"
                           ∨ ext = Some "json")) eqn:Htext;
    cbn [orb];
    try (split; [intros ? ? [=] | discriminate]);
    destruct (reading f) as [|[content|]] eqn:Hread;
    try (split; [intros ? ? [=] | discriminate]);
    destruct (bool_decide (ext = Some "csv" ∨ ext = Some "txt")) eqn:Hcsv;
    try destruct (bool_decide (ext = Some "json")) eqn:Hjson;
    repeat match goal with
           | H : bool_decide _ = true |- _ => apply bool_decide_eq_true in H
           | H : bool_decide _ = false |- _ => apply bool_decide_eq_false in H
           end;
    try tauto;
    repeat case_match;
    (split; [intros csv n Hup; try discriminate Hup | discriminate]);
    injection Hup as <- <-; exists f, content;
    (split; [done|]); (split; [done|]); (split; [done|]);
    apply Hin; tauto.
Qed.

Lemma only_supported_files_are_uploaded_witness :
  let file := {| name := "notes.pdf"; reading := ReadLoad (Some "text") |} in
  let outcome :=
    handleFile string Samples.no_library Samples.no_library
               (λ _, false) Samples.no_library (Some file) in
  outcome = Alerted "Please upload a valid CSV, Excel, or JSON file."
  ∧ ∀ csvString fileName, outcome ≠ Uploaded csvString fileName.
Proof.
  intros file outcome.
  destruct (only_supported_files_are_uploaded
              string Samples.no_library Samples.no_library
              (λ _, false) Samples.no_library (Some file)) as [Hup _].
  split; [reflexivity|].
  intros csvString fileName Heq.
  destruct (Hup csvString fileName Heq)
    as (f & content & [= <-] & _ & _ & Hext).
  vm_compute in Hext.
  repeat (apply elem_of_cons in Hext as [Hext|Hext]; [discriminate Hext|]).
  by apply elem_of_nil in Hext.
Defined.

End UploadFacts.

(** ** The colours of a chart *)
Section ChartFacts.
Import ChartRenderer.

(** X21. Every series and every pie cell gets a colour, however many
    there are, and two of them get the same colour exactly when their
    positions differ by a multiple of six. *)
Theorem colours_repeat_every_six (i j : nat) :
  is_Some (fill i)
  ∧ (fill i = fill j ↔ (i `mod` 6 = j `mod` 6)%nat).
Proof.
  unfold fill. change (length COLORS) with 6%nat.
  pose proof (Nat.mod_upper_bound i 6 ltac:(lia)) as Hi.
  pose proof (Nat.mod_upper_bound j 6 ltac:(lia)) as Hj.
  split; [by apply lookup_lt_is_Some|].
  split; [|by intros ->].
  intros Heq.
  destruct (COLORS !! (i `mod` 6)%nat) as [colour|] eqn:Hcolour.
  - assert (Hnd : NoDup COLORS).
    { apply (bool_decide_eq_true_1 _). vm_compute. reflexivity. }
    by eapply (NoDup_lookup COLORS).
  - apply lookup_ge_None in Hcolour. cbn in Hcolour. lia.
Qed.

End ChartFacts.
